(** * SHolo: gaze mapping, gesture classification and inertial rotation

    A shallow embedding of the control layer of SHolo
    ([hands_tracking.py], [eyes_tracking.py], [view_3d.py], [config.py])
    and the properties its specification states about it.

    Number model.  Python floats are idealised as exact numbers:
    - the gesture classifier only adds, subtracts, multiplies, divides,
      rounds and compares, so it is embedded over the rationals [Q] and
      every definition of it evaluates;
    - the gaze mapper and the viewer need [pi], [sqrt], [sin], [cos] and
      [arctan2], so they are embedded over the reals [R];
    - the one division of the source whose divisor can be zero at run time
      without raising (a numpy scalar) is given an explicit non-finite
      result, see [Np.npfloat].
    Rounding error of the binary64 format is not modelled. *)

From Stdlib Require Import List Sorted Bool ZArith QArith Qround Qabs Qreals Reals Psatz RNsatz.
Import ListNotations.

(* ================================================================= *)
(** ** hands_tracking.py *)

Module Hands.

Local Open Scope Q_scope.

(** [a > b] on floats, as a boolean. *)
Definition Qgtb (a b : Q) : bool := negb (Qle_bool a b).

(** Python's [round(v)] on an exact number: nearest integer, ties to even. *)
Definition round_half_even (v : Q) : Z :=
  let f := Qfloor v in
  match Qcompare (v - inject_Z f) (1 # 2) with
  | Lt => f
  | Gt => (f + 1)%Z
  | Eq => if Z.even f then f else (f + 1)%Z
  end.

(** Python's [round(v, 2)]. *)
Definition round2 (v : Q) : Q := inject_Z (round_half_even (v * 100)) / 100.

(** One MediaPipe landmark: normalised image coordinates. *)
Record Landmark : Set := mkLandmark { x : Q; y : Q }.

(** [hand_landmarks.landmark], indexed by landmark number (MediaPipe always
    delivers the 21 landmarks of a hand; the code reads 0, 4, 8, 12, 16, 20). *)
Definition HandLandmarks : Set := nat -> Landmark.

(** The constants of [config.py] the tracker reads. *)
Record HandConfig : Set := mkHandConfig {
  SWIPE_THRESHOLD : Q;
  STOP_THRESHOLD : Q;
  GESTURE_COOLDOWN : Q;
  VISIBILITY_RESET_TIME : Q
}.

(** The values [config.py] gives them. *)
Definition config : HandConfig :=
  {| SWIPE_THRESHOLD := 15 # 100;
     STOP_THRESHOLD := 6 # 10;
     GESTURE_COOLDOWN := 5 # 10;
     VISIBILITY_RESET_TIME := 15 # 10 |}.

(** The mutable attributes of a [HandTracker]. *)
Record HandTracker : Set := mkHandTracker {
  prev_x : option Q;
  hand_visible : bool;
  last_seen_time : Q;
  last_gesture_time : Q
}.

(** [HandTracker.__init__], run at wall-clock time [now]. *)
Definition init (now : Q) : HandTracker :=
  {| prev_x := None;
     hand_visible := false;
     last_seen_time := now;
     last_gesture_time := 0 |}.

(** What the tracker does to the outside: the callback it invokes. *)
Inductive Callback : Set :=
| swipe_callback (magnitude : Q)
| stop_callback.

Definition is_swipe (c : Callback) : bool :=
  match c with swipe_callback _ => true | stop_callback => false end.

Definition is_stop (c : Callback) : bool :=
  match c with swipe_callback _ => false | stop_callback => true end.

Definition set_last_gesture_time (t : Q) (s : HandTracker) : HandTracker :=
  {| prev_x := prev_x s;
     hand_visible := hand_visible s;
     last_seen_time := last_seen_time s;
     last_gesture_time := t |}.

Definition set_prev_x (p : option Q) (s : HandTracker) : HandTracker :=
  {| prev_x := p;
     hand_visible := hand_visible s;
     last_seen_time := last_seen_time s;
     last_gesture_time := last_gesture_time s |}.

(** [HandTracker.handle_swipe]: the new tracker and the callbacks invoked.
    Drawing on the frame is left out. *)
Definition handle_swipe (cfg : HandConfig) (hand_landmarks : HandLandmarks)
    (current_time : Q) (s : HandTracker) : HandTracker * list Callback :=
  let x0 := x (hand_landmarks 0%nat) in
  let '(s1, out) :=
    match prev_x s with
    | Some px =>
        let movement := x0 - px in
        if Qgtb (Qabs movement) (SWIPE_THRESHOLD cfg)
           && Qgtb (current_time - last_gesture_time s) (GESTURE_COOLDOWN cfg)
        then
          let swipe_magnitude := round2 (Qabs movement * 10) in
          (set_last_gesture_time current_time s,
           [swipe_callback
              ((if Qgtb movement 0 then 1 else -1) * swipe_magnitude)])
        else (s, [])
    | None => (s, [])
    end in
  (set_prev_x (Some x0) s1, out).

(** [np.mean] of a list of floats. *)
Definition mean (l : list Q) : Q :=
  fold_right Qplus 0 l / inject_Z (Z.of_nat (length l)).

(** [HandTracker.handle_stop_gesture]. *)
Definition handle_stop_gesture (cfg : HandConfig) (hand_landmarks : HandLandmarks)
    (current_time : Q) (s : HandTracker) : HandTracker * list Callback :=
  let finger_tips := map (fun i => y (hand_landmarks i)) [4; 8; 12; 16; 20]%nat in
  let palm_center := y (hand_landmarks 0%nat) in
  let openness := Qabs (mean (map (fun tip => tip - palm_center) finger_tips)) in
  if Qgtb openness (STOP_THRESHOLD cfg)
     && Qgtb (current_time - last_gesture_time s) (GESTURE_COOLDOWN cfg)
  then (set_last_gesture_time current_time s, [stop_callback])
  else (s, []).

(** The body of the loop over the detected hands of one frame. *)
Fixpoint for_hands (cfg : HandConfig) (hands : list HandLandmarks)
    (current_time : Q) (s : HandTracker) : HandTracker * list Callback :=
  match hands with
  | [] => (s, [])
  | hand_landmarks :: rest =>
      let '(s1, out1) := handle_swipe cfg hand_landmarks current_time s in
      let '(s2, out2) := handle_stop_gesture cfg hand_landmarks current_time s1 in
      let '(s3, out3) := for_hands cfg rest current_time s2 in
      (s3, out1 ++ out2 ++ out3)
  end.

(** What [track] reads of a frame: the clock and the detector's result
    ([result.multi_hand_landmarks]; no hand is the empty list). *)
Record Frame : Set := mkFrame {
  current_time : Q;
  multi_hand_landmarks : list HandLandmarks
}.

(** [HandTracker.track]. *)
Definition track (cfg : HandConfig) (fr : Frame) (s : HandTracker)
    : HandTracker * list Callback :=
  match multi_hand_landmarks fr with
  | [] =>
      if hand_visible s
         && Qgtb (current_time fr - last_seen_time s) (VISIBILITY_RESET_TIME cfg)
      then ({| prev_x := None;
               hand_visible := false;
               last_seen_time := last_seen_time s;
               last_gesture_time := last_gesture_time s |}, [])
      else (s, [])
  | hands =>
      for_hands cfg hands (current_time fr)
        {| prev_x := prev_x s;
           hand_visible := true;
           last_seen_time := current_time fr;
           last_gesture_time := last_gesture_time s |}
  end.

(** The capture loop of [track_hands]: the frames in order, each callback
    paired with the time of the frame that invoked it. *)
Fixpoint run (cfg : HandConfig) (frames : list Frame) (s : HandTracker)
    : HandTracker * list (Q * Callback) :=
  match frames with
  | [] => (s, [])
  | fr :: rest =>
      let '(s1, out) := track cfg fr s in
      let '(s2, outs) := run cfg rest s1 in
      (s2, map (fun c => (current_time fr, c)) out ++ outs)
  end.

End Hands.

(* ================================================================= *)
(** ** The numpy operations the source uses *)

Module Np.

Local Open Scope R_scope.

(** A three-component float array, as [np.array([a, b, c])]. *)
Definition vec3 : Type := (R * R * R)%type.

Definition dot (u v : vec3) : R :=
  let '(u0, u1, u2) := u in
  let '(v0, v1, v2) := v in
  u0 * v0 + u1 * v1 + u2 * v2.

(** [np.linalg.norm] of a vector. *)
Definition norm (v : vec3) : R := sqrt (dot v v).

(** [v / c], component by component. *)
Definition vdiv (v : vec3) (c : R) : vec3 :=
  let '(v0, v1, v2) := v in (v0 / c, v1 / c, v2 / c).

(** [np.arctan2(y, x)] on finite arguments, by the quadrant of [(x, y)]. *)
Definition arctan2 (y x : R) : R :=
  if Rlt_dec 0 x then atan (y / x)
  else if Rlt_dec x 0 then
    if Rle_dec 0 y then atan (y / x) + PI else atan (y / x) - PI
  else if Rlt_dec 0 y then PI / 2
  else if Rlt_dec y 0 then - (PI / 2)
  else 0.

(** [np.mean] of a list of floats. *)
Definition mean (l : list R) : R := fold_right Rplus 0 l / INR (length l).

(** A numpy float: a finite value, or the infinity that dividing a positive
    numpy scalar by zero returns (numpy warns, it does not raise). *)
Inductive npfloat : Type :=
| finite (r : R)
| inf.

Definition is_finite (f : npfloat) : bool :=
  match f with finite _ => true | inf => false end.

End Np.

(* ================================================================= *)
(** ** eyes_tracking.py *)

Module Eyes.

Import Np.
Local Open Scope R_scope.

(** *** The constants of [config.py] the eye tracker reads *)

Definition SCREEN_WIDTH_CM : R := 52.
Definition SCREEN_HEIGHT_CM : R := 295 / 10.
Definition SCREEN_RESOLUTION : Z * Z := (1920, 1080)%Z.
Definition CAMERA_WIDTH : R := 640.
Definition CAMERA_HEIGHT : R := 480.
Definition FOCAL_LENGTH_MM : R := 392 / 100.
Definition SENSOR_WIDTH_MM : R := (1 / (29 / 10)) * (254 / 100) * 10.
Definition FOCAL_LENGTH_PX : R :=
  (FOCAL_LENGTH_MM / SENSOR_WIDTH_MM) * (2 * CAMERA_WIDTH).
Definition SCENE_SCREEN_DISTANCE_CM : R := 200.
Definition IPD_REAL_CM : R := 65 / 10.

(** One face-mesh landmark: normalised image coordinates. *)
Record Landmark : Type := mkLandmark { x : R; y : R }.

(** [face_landmarks.landmark], indexed by landmark number. *)
Definition FaceLandmarks : Type := nat -> Landmark.

Definition left_eye_indices : list nat := [33; 133; 159; 145]%nat.
Definition right_eye_indices : list nat := [362; 263; 386; 374]%nat.

(** [EyeTracker.get_eye_center]: the mean of the listed landmarks,
    coordinate by coordinate ([np.mean(eye_points, axis=0)]). *)
Definition get_eye_center (landmarks : FaceLandmarks) (eye_indices : list nat)
    : R * R :=
  let eye_points := map (fun i => (x (landmarks i), y (landmarks i))) eye_indices in
  (mean (map fst eye_points), mean (map snd eye_points)).

(** Python's [int(v)] on a float: truncation towards zero. *)
Definition int (v : R) : Z :=
  if Rle_dec 0 v then Int_part v else (- Int_part (- v))%Z.

(** [EyeTracker.estimate_distance].  [ipd_px] is a numpy scalar (the result
    of [np.linalg.norm]), so the division by zero yields infinity. *)
Definition estimate_distance (ipd_px : R) : npfloat :=
  if Req_dec_T ipd_px 0 then inf
  else finite ((IPD_REAL_CM * FOCAL_LENGTH_PX) / ipd_px).

(** The pixel coordinates of the two eye centres
    ([left_x, left_y, right_x, right_y] of [track]). *)
Definition eye_pixels (landmarks : FaceLandmarks) : (Z * Z) * (Z * Z) :=
  let left_eye_center := get_eye_center landmarks left_eye_indices in
  let right_eye_center := get_eye_center landmarks right_eye_indices in
  ((int (fst left_eye_center * CAMERA_WIDTH),
    int (snd left_eye_center * CAMERA_HEIGHT)),
   (int (fst right_eye_center * CAMERA_WIDTH),
    int (snd right_eye_center * CAMERA_HEIGHT))).

(** The inter-pupillary distance in pixels:
    [np.linalg.norm(np.array([left_x, left_y]) - np.array([right_x, right_y]))]. *)
Definition ipd_px_of (left right : Z * Z) : R :=
  let dx := IZR (fst left - fst right) in
  let dy := IZR (snd left - snd right) in
  sqrt (dx * dx + dy * dy).

(** The body of the loop of [EyeTracker.track] for one detected face: the
    arguments [update_eyes_callback] is invoked with.  Drawing is left out. *)
Definition track_face (landmarks : FaceLandmarks) : Z * Z * npfloat :=
  let '((left_x, left_y), (right_x, right_y)) := eye_pixels landmarks in
  let ipd_px := ipd_px_of (left_x, left_y) (right_x, right_y) in
  let distance_cm := estimate_distance ipd_px in
  let eye_avg_x := IZR (left_x + right_x) / 2 in
  let eye_avg_y := IZR (left_y + right_y) / 2 in
  let relative_x := (eye_avg_x - CAMERA_WIDTH / 2) / (CAMERA_WIDTH / 2) in
  let relative_y := (eye_avg_y - CAMERA_HEIGHT / 2) / (CAMERA_HEIGHT / 2) in
  let screen_x := int ((relative_x + 1) / 2 * IZR (fst SCREEN_RESOLUTION)) in
  let screen_y := int ((relative_y + 1) / 2 * IZR (snd SCREEN_RESOLUTION)) in
  (screen_x, screen_y, distance_cm).

(** [EyeTracker.track]: the invocations of [update_eyes_callback], one per
    detected face, in order ([results.multi_face_landmarks]; no face is the
    empty list). *)
Definition track (multi_face_landmarks : list FaceLandmarks)
    : list (Z * Z * npfloat) :=
  map track_face multi_face_landmarks.

(** [compute_gaze_rotation], on a finite [distance_cm]. *)
Definition compute_gaze_rotation (screen_x screen_y : Z) (distance_cm : R)
    : R * vec3 :=
  let center_x := IZR (fst SCREEN_RESOLUTION) / 2 in
  let center_y := IZR (snd SCREEN_RESOLUTION) / 2 in
  let dx := IZR screen_x - center_x in
  let dy := IZR screen_y - center_y in
  let dx_cm := (dx / IZR (fst SCREEN_RESOLUTION)) * SCREEN_WIDTH_CM in
  let dy_cm := (dy / IZR (snd SCREEN_RESOLUTION)) * SCREEN_HEIGHT_CM in
  let scene_distance_cm := SCENE_SCREEN_DISTANCE_CM + distance_cm in
  let yaw_angle := arctan2 dx_cm scene_distance_cm in
  let pitch_angle := arctan2 dy_cm scene_distance_cm in
  let angle := sqrt (yaw_angle ^ 2 + pitch_angle ^ 2) in
  let direction := (pitch_angle, yaw_angle, 0) in
  let norm := Np.norm direction in
  let direction := if Rlt_dec 0 norm then vdiv direction norm else direction in
  (- angle, direction).

End Eyes.

(* ================================================================= *)
(** ** view_3d.py *)

Module View3D.

Import Np.
Local Open Scope R_scope.

(** *** The scene, as far as the viewer touches it *)

(** A call [t.rotation_matrix(angle, direction)] of
    [trimesh.transformations], kept with its two arguments. *)
Inductive transform : Type :=
| rotation_matrix (angle : R) (direction : vec3).

(** The scene is the record of the [scene.apply_transform] calls made on
    it, oldest first. *)
Definition Scene : Type := list transform.

Definition apply_transform (t : transform) (scene : Scene) : Scene :=
  scene ++ [t].

(** *** The viewer *)

(** The attributes of a [HoloViewer] that the control code reads or writes. *)
Record HoloViewer : Type := mkHoloViewer {
  fps : R;
  current_speed : R;
  base_speed : R;
  target_speed : R;
  base_deceleration : R;
  stop_deceleration : R;
  deceleration : R;
  rotation_direction : Z;
  camera_current_angle : R;
  camera_current_direction : vec3;
  scene : Scene
}.

(** [HoloViewer.__init__] with the keyword arguments [fps], [speed] and
    [base_speed] (24, 0 and 0.125 when they are not given). *)
Definition init (scene0 : Scene) (fps0 speed base_speed0 : R) : HoloViewer :=
  {| fps := fps0;
     current_speed := speed;
     base_speed := base_speed0;
     target_speed := speed;
     base_deceleration := 125 / 10000;
     stop_deceleration := 25 / 100;
     deceleration := 0;
     rotation_direction := 1;
     camera_current_angle := 0;
     camera_current_direction := (0, 1, 0);
     scene := scene0 |}.

Definition init_default (scene0 : Scene) : HoloViewer :=
  init scene0 24 0 (125 / 1000).

Definition set_current_speed (c : R) (v : HoloViewer) : HoloViewer :=
  {| fps := fps v;
     current_speed := c;
     base_speed := base_speed v;
     target_speed := target_speed v;
     base_deceleration := base_deceleration v;
     stop_deceleration := stop_deceleration v;
     deceleration := deceleration v;
     rotation_direction := rotation_direction v;
     camera_current_angle := camera_current_angle v;
     camera_current_direction := camera_current_direction v;
     scene := scene v |}.

Definition set_scene (sc : Scene) (v : HoloViewer) : HoloViewer :=
  {| fps := fps v;
     current_speed := current_speed v;
     base_speed := base_speed v;
     target_speed := target_speed v;
     base_deceleration := base_deceleration v;
     stop_deceleration := stop_deceleration v;
     deceleration := deceleration v;
     rotation_direction := rotation_direction v;
     camera_current_angle := camera_current_angle v;
     camera_current_direction := camera_current_direction v;
     scene := sc |}.

(** The speed update of [_auto_rotate] ("Apply gradual deceleration"). *)
Definition decelerate (delta_time : R) (v : HoloViewer) : R :=
  if Rgt_dec (current_speed v) (target_speed v) then
    if Rgt_dec (current_speed v - target_speed v)
               (Rmax (target_speed v) (deceleration v))
    then current_speed v * (1 - delta_time) + target_speed v * delta_time
    else Rmax (current_speed v - deceleration v * delta_time) (target_speed v)
  else current_speed v.

(** [HoloViewer._auto_rotate].  [1 / self.fps] raises [ZeroDivisionError]
    when [fps] is zero: [None].  The forced redraw is left out. *)
Definition _auto_rotate (v : HoloViewer) : option HoloViewer :=
  if Req_dec_T (fps v) 0 then None
  else
    let delta_time := 1 / fps v in
    let v1 := set_current_speed (decelerate delta_time v) v in
    let transform :=
      rotation_matrix
        (IZR (rotation_direction v1) * current_speed v1 * 2 * PI * delta_time)
        (0, 1, 0) in
    Some (set_scene (apply_transform transform (scene v1)) v1).

(** [n] consecutive timer callbacks ([_auto_motor]). *)
Fixpoint ticks (n : nat) (v : HoloViewer) : option HoloViewer :=
  match n with
  | O => Some v
  | S n' =>
      match _auto_rotate v with
      | Some v1 => ticks n' v1
      | None => None
      end
  end.

(** [HoloViewer.set_camera_angle]. *)
Definition set_camera_angle (angle : R) (direction : vec3) (v : HoloViewer)
    : HoloViewer :=
  let scene1 :=
    apply_transform
      (rotation_matrix (- camera_current_angle v) (camera_current_direction v))
      (scene v) in
  {| fps := fps v;
     current_speed := current_speed v;
     base_speed := base_speed v;
     target_speed := target_speed v;
     base_deceleration := base_deceleration v;
     stop_deceleration := stop_deceleration v;
     deceleration := deceleration v;
     rotation_direction := rotation_direction v;
     camera_current_angle := angle;
     camera_current_direction := direction;
     scene := apply_transform (rotation_matrix angle direction) scene1 |}.

(** [HoloViewer.swipe]. *)
Definition swipe (swipe_magnitude : R) (v : HoloViewer) : HoloViewer :=
  let swipe_magnitude := swipe_magnitude / 5 in
  let current_speed1 :=
    swipe_magnitude + current_speed v * IZR (rotation_direction v) in
  let rotation_direction1 := if Rge_dec current_speed1 0 then 1%Z else (-1)%Z in
  let current_speed2 := current_speed1 * IZR rotation_direction1 in
  {| fps := fps v;
     current_speed := current_speed2;
     base_speed := base_speed v;
     target_speed := base_speed v;
     base_deceleration := base_deceleration v;
     stop_deceleration := stop_deceleration v;
     deceleration := base_deceleration v;
     rotation_direction := rotation_direction1;
     camera_current_angle := camera_current_angle v;
     camera_current_direction := camera_current_direction v;
     scene := scene v |}.

(** [HoloViewer.stop_rotation]. *)
Definition stop_rotation (v : HoloViewer) : HoloViewer :=
  {| fps := fps v;
     current_speed := current_speed v;
     base_speed := base_speed v;
     target_speed := 0;
     base_deceleration := base_deceleration v;
     stop_deceleration := stop_deceleration v;
     deceleration := stop_deceleration v;
     rotation_direction := rotation_direction v;
     camera_current_angle := camera_current_angle v;
     camera_current_direction := camera_current_direction v;
     scene := scene v |}.

(** *** What the recorded transforms denote *)

(** A 3x3 matrix by rows: the rotation block of the homogeneous matrices
    [rotation_matrix] builds (no [point] is ever passed, so the rest of
    each matrix is that of the identity). *)
Definition mat3 : Type := (vec3 * vec3 * vec3)%type.

Definition identity : mat3 := ((1, 0, 0), (0, 1, 0), (0, 0, 1)).

Definition col0 (m : mat3) : vec3 :=
  let '((a, _, _), (b, _, _), (c, _, _)) := m in (a, b, c).
Definition col1 (m : mat3) : vec3 :=
  let '((_, a, _), (_, b, _), (_, c, _)) := m in (a, b, c).
Definition col2 (m : mat3) : vec3 :=
  let '((_, _, a), (_, _, b), (_, _, c)) := m in (a, b, c).

(** The matrix product [a @ b]. *)
Definition mmul (a b : mat3) : mat3 :=
  let '(r0, r1, r2) := a in
  ((dot r0 (col0 b), dot r0 (col1 b), dot r0 (col2 b)),
   (dot r1 (col0 b), dot r1 (col1 b), dot r1 (col2 b)),
   (dot r2 (col0 b), dot r2 (col1 b), dot r2 (col2 b))).

(** [trimesh.transformations.unit_vector]. *)
Definition unit_vector (d : vec3) : vec3 := vdiv d (sqrt (dot d d)).

(** The rotation about the unit vector [u] by [angle], as
    [trimesh.transformations.rotation_matrix] assembles it:
    [diag(cos) + outer(u, u) * (1 - cos) + sin * cross(u)]. *)
Definition rotation_about (angle : R) (u : vec3) : mat3 :=
  let sina := sin angle in
  let cosa := cos angle in
  let '(u0, u1, u2) := u in
  ((cosa + u0 * u0 * (1 - cosa),
    u0 * u1 * (1 - cosa) - u2 * sina,
    u0 * u2 * (1 - cosa) + u1 * sina),
   (u1 * u0 * (1 - cosa) + u2 * sina,
    cosa + u1 * u1 * (1 - cosa),
    u1 * u2 * (1 - cosa) - u0 * sina),
   (u2 * u0 * (1 - cosa) - u1 * sina,
    u2 * u1 * (1 - cosa) + u0 * sina,
    cosa + u2 * u2 * (1 - cosa))).

(** The matrix a recorded call evaluates to.  With the zero vector as
    direction [unit_vector] divides by zero and every entry of the rotation
    block is not-a-number: [None]. *)
Definition matrix_of (t : transform) : option mat3 :=
  match t with
  | rotation_matrix angle direction =>
      if Req_dec_T (sqrt (dot direction direction)) 0 then None
      else Some (rotation_about angle (unit_vector direction))
  end.

(** The net transform of the scene: each applied matrix multiplies the
    transform accumulated so far from the left; a not-a-number matrix
    spoils the product for good. *)
Definition scene_matrix (sc : Scene) : option mat3 :=
  fold_left
    (fun acc t =>
       match acc, matrix_of t with
       | Some m, Some r => Some (mmul r m)
       | _, _ => None
       end)
    sc (Some identity).

End View3D.

(* ================================================================= *)
(** ** SHolo.py *)

Module SHolo.

Import Np.
Local Open Scope R_scope.

(** [compute_gaze_rotation] on the distance that [EyeTracker.track] hands
    over, a numpy float.  With an infinite distance the scene distance is
    infinite, both [arctan2] are zero, so are the angle and the norm, and
    the direction stays the zero vector. *)
Definition gaze_rotation (screen_x screen_y : Z) (distance_cm : npfloat)
    : R * vec3 :=
  match distance_cm with
  | finite d => Eyes.compute_gaze_rotation screen_x screen_y d
  | inf => (0, (0, 0, 0))
  end.

(** [StimuliRetrieverThread.update_eyes]. *)
Definition update_eyes (screen_x screen_y : Z) (distance_cm : npfloat)
    (viewer : View3D.HoloViewer) : View3D.HoloViewer :=
  let '(angle, direction) := gaze_rotation screen_x screen_y distance_cm in
  View3D.set_camera_angle angle direction viewer.

(** The two callbacks [run] gives to [track_hands]: [viewer.swipe] and
    [viewer.stop_rotation]. *)
Definition deliver (c : Hands.Callback) (viewer : View3D.HoloViewer)
    : View3D.HoloViewer :=
  match c with
  | Hands.swipe_callback magnitude => View3D.swipe (Q2R magnitude) viewer
  | Hands.stop_callback => View3D.stop_rotation viewer
  end.

(** What the detectors find in one captured frame. *)
Record Capture : Type := mkCapture {
  faces : list Eyes.FaceLandmarks;
  hands : Hands.Frame
}.

(** The body of the loop of [StimuliRetrieverThread.run]: [track_eyes] with
    [update_eyes], then [track_hands] with the viewer's two methods.  The
    callbacks act on the viewer in the order they are invoked. *)
Definition process (cfg : Hands.HandConfig) (c : Capture)
    (st : Hands.HandTracker * View3D.HoloViewer)
    : Hands.HandTracker * View3D.HoloViewer :=
  let '(tracker, viewer) := st in
  let viewer1 :=
    fold_left (fun v '(screen_x, screen_y, distance_cm) =>
                 update_eyes screen_x screen_y distance_cm v)
              (Eyes.track (faces c)) viewer in
  let '(tracker1, out) := Hands.track cfg (hands c) tracker in
  (tracker1, fold_left (fun v cb => deliver cb v) out viewer1).

(** [StimuliRetrieverThread.run] over the frames the camera delivers. *)
Definition run (cfg : Hands.HandConfig) (captures : list Capture)
    (st : Hands.HandTracker * View3D.HoloViewer)
    : Hands.HandTracker * View3D.HoloViewer :=
  fold_left (fun st c => process cfg c st) captures st.

(** One call on the viewer: the timer callback [_auto_motor] of the event
    loop, or one of the calls the retriever thread makes. *)
Inductive Call : Type :=
| call_auto_motor
| call_swipe (swipe_magnitude : R)
| call_stop_rotation
| call_set_camera_angle (angle : R) (direction : vec3).

Definition call (c : Call) (viewer : View3D.HoloViewer)
    : option View3D.HoloViewer :=
  match c with
  | call_auto_motor => View3D._auto_rotate viewer
  | call_swipe m => Some (View3D.swipe m viewer)
  | call_stop_rotation => Some (View3D.stop_rotation viewer)
  | call_set_camera_angle a d => Some (View3D.set_camera_angle a d viewer)
  end.

(** A sequence of calls, stopping at the first that raises. *)
Fixpoint calls (cs : list Call) (viewer : View3D.HoloViewer)
    : option View3D.HoloViewer :=
  match cs with
  | [] => Some viewer
  | c :: rest =>
      match call c viewer with
      | Some viewer1 => calls rest viewer1
      | None => None
      end
  end.

End SHolo.

(* ================================================================= *)
(** ** Auxiliary predicates and the inputs of the scenarios *)

Section ViewerScenarios.

Import Np View3D.
Local Open Scope R_scope.

(** The viewer of the two tick scenarios: 24 frames per second. *)
Definition scenario_viewer (speed target rate : R) : HoloViewer :=
  {| fps := 24;
     current_speed := speed;
     base_speed := 125 / 1000;
     target_speed := target;
     base_deceleration := 125 / 10000;
     stop_deceleration := 25 / 100;
     deceleration := rate;
     rotation_direction := 1;
     camera_current_angle := 0;
     camera_current_direction := (0, 1, 0);
     scene := [] |}.

(** Overwrite the speed and the direction of a viewer. *)
Definition with_motion (speed : R) (dir : Z) (v : HoloViewer) : HoloViewer :=
  {| fps := fps v;
     current_speed := speed;
     base_speed := base_speed v;
     target_speed := target_speed v;
     base_deceleration := base_deceleration v;
     stop_deceleration := stop_deceleration v;
     deceleration := deceleration v;
     rotation_direction := dir;
     camera_current_angle := camera_current_angle v;
     camera_current_direction := camera_current_direction v;
     scene := scene v |}.

End ViewerScenarios.

Section FaceScenarios.

Import Np Eyes.
Local Open Scope R_scope.

(** A detection whose landmarks all sit on one point. *)
Definition collapsed_face : FaceLandmarks :=
  fun _ => {| x := 1 / 2; y := 1 / 2 |}.

End FaceScenarios.

Section GestureScenarios.

Import Hands.
Local Open Scope Q_scope.

(** What one detector, or a run of detectors within one frame, can do to the
    shared gesture clock at frame time [t]: nothing (no callback, clock
    unchanged), or one callback, the clock set to [t], and then more than
    the cooldown had passed since the clock's former value. *)
Definition quiet (s s' : HandTracker) (out : list Callback) : Prop :=
  out = [] /\ last_gesture_time s' = last_gesture_time s.

Definition fired (cfg : HandConfig) (t : Q) (s s' : HandTracker) (out : list Callback) : Prop :=
  exists c, out = [c] /\ last_gesture_time s' = t /\
            GESTURE_COOLDOWN cfg < t - last_gesture_time s.

Definition outcome (cfg : HandConfig) (t : Q) (s s' : HandTracker) (out : list Callback) : Prop :=
  quiet s s' out \/ fired cfg t s s' out.

(** A hand whose wrist is at [wrist_x], with wrist height [wrist_y] and all
    five fingertips at height [tip_y]. *)
Definition hand_at (wrist_x wrist_y tip_y : Q) : HandLandmarks :=
  fun i =>
    match i with
    | O => mkLandmark wrist_x wrist_y
    | _ => mkLandmark wrist_x tip_y
    end.

(** A closed hand (fingertips level with the wrist) sweeping right: seen at
    10.0 s, then 0.3 further right at 10.1 s and again at 10.2 s, then 0.4
    to the left at 10.7 s. *)
Definition sweep : list Frame :=
  [ mkFrame 10 [hand_at (1 # 10) (5 # 10) (5 # 10)];
    mkFrame (101 # 10) [hand_at (4 # 10) (5 # 10) (5 # 10)];
    mkFrame (102 # 10) [hand_at (7 # 10) (5 # 10) (5 # 10)];
    mkFrame (107 # 10) [hand_at (3 # 10) (5 # 10) (5 # 10)] ].

(** A hand that is both open (fingertips 0.8 above the wrist) and moving:
    first seen at 10 s, then 0.8 further right at 11 s. *)
Definition open_sweep : list Frame :=
  [ mkFrame 10 [hand_at (1 # 10) (9 # 10) (1 # 10)];
    mkFrame 11 [hand_at (9 # 10) (9 # 10) (1 # 10)] ].


(** How open a hand is, as [handle_stop_gesture] measures it. *)
Definition openness (hand_landmarks : HandLandmarks) : Q :=
  let finger_tips := map (fun i => y (hand_landmarks i)) [4; 8; 12; 16; 20]%nat in
  let palm_center := y (hand_landmarks 0%nat) in
  Qabs (mean (map (fun tip => tip - palm_center) finger_tips)).

(** The wrist positions of a run of frames, in the order [track] meets
    them: frame after frame, hand after hand. *)
Definition wrists (frames : list Frame) : list Q :=
  flat_map (fun fr => map (fun h => x (h 0%nat)) (multi_hand_landmarks fr))
           frames.

(** No wrist position is further than [bound] from the one before it,
    starting from [prev]. *)
Fixpoint steps_within (bound : Q) (prev : option Q) (xs : list Q) : Prop :=
  match xs with
  | [] => True
  | x0 :: rest =>
      match prev with
      | Some p => Qabs (x0 - p) <= bound
      | None => True
      end /\ steps_within bound (Some x0) rest
  end.




End GestureScenarios.

Section MotionPredicates.

Import Np View3D.
Local Open Scope R_scope.

(** The velocity of the spin with its sign: positive to the right. *)
Definition signed_speed (v : HoloViewer) : R :=
  current_speed v * IZR (rotation_direction v).

(** The state a viewer is meant to be in: a frame rate of at least one, no
    negative speed, target or rate, and a direction of +1 or -1. *)
Definition motion_ok (v : HoloViewer) : Prop :=
  1 <= fps v /\
  0 <= current_speed v /\
  0 <= target_speed v /\
  0 <= deceleration v /\
  0 <= base_speed v /\
  0 <= base_deceleration v /\
  0 <= stop_deceleration v /\
  (rotation_direction v = 1%Z \/ rotation_direction v = (-1)%Z).

(** The angle of the spin that [n] ticks add up to. *)
Fixpoint spin_angle (n : nat) (v : HoloViewer) : R :=
  match n with
  | O => 0
  | S n' =>
      let c := decelerate (1 / fps v) v in
      IZR (rotation_direction v) * c * 2 * PI * (1 / fps v)
      + spin_angle n' (set_current_speed c v)
  end.

(** The motion state of a viewer: what the gestures and the ticks act on. *)
Definition motion (v : HoloViewer) : R * Z * R * R :=
  (current_speed v, rotation_direction v, target_speed v, deceleration v).

End MotionPredicates.

(* ================================================================= *)
(** ** The inertial rotation controller *)

Section Rotation.

Import Np View3D.
Local Open Scope R_scope.

(** With [fps >= 1] the step [1 / fps] lies in (0, 1]. *)
Lemma delta_time_range (f : R) : 1 <= f -> 0 < 1 / f <= 1.
Proof.
  intros Hf.
  assert (Hpos : 0 < f) by lra.
  split.
  - apply Rdiv_lt_0_compat; lra.
  - apply (Rmult_le_reg_r f); [exact Hpos|].
    unfold Rdiv. rewrite Rmult_assoc, Rinv_l by lra. lra.
Qed.

(** A tick succeeds exactly when [fps] is not zero, and then it is the
    deceleration step followed by one recorded rotation about the y axis. *)
Lemma auto_rotate_some (v : HoloViewer) :
  fps v <> 0 ->
  _auto_rotate v =
    Some (set_scene
            (apply_transform
               (rotation_matrix
                  (IZR (rotation_direction v) * decelerate (1 / fps v) v
                   * 2 * PI * (1 / fps v))
                  (0, 1, 0))
               (scene v))
            (set_current_speed (decelerate (1 / fps v) v) v)).
Proof.
  intros Hf. unfold _auto_rotate.
  destruct (Req_dec_T (fps v) 0) as [E | _]; [contradiction | reflexivity].
Qed.

Lemma auto_rotate_none (v : HoloViewer) : fps v = 0 -> _auto_rotate v = None.
Proof.
  intros Hf. unfold _auto_rotate.
  destruct (Req_dec_T (fps v) 0) as [_ | N]; [reflexivity | contradiction].
Qed.

(** The deceleration step never takes the speed below a target it was
    above, and never raises it when the active rate is not negative (or the
    target is not positive), for a step in (0, 1]. *)
Lemma decelerate_bounds (dt : R) (v : HoloViewer) :
  0 < dt <= 1 ->
  target_speed v <= current_speed v ->
  target_speed v <= decelerate dt v /\
  (0 <= deceleration v \/ target_speed v <= 0 ->
   decelerate dt v <= current_speed v).
Proof.
  intros [Hdt0 Hdt1] Hge. unfold decelerate.
  destruct (Rgt_dec (current_speed v) (target_speed v)) as [Hgt | Hngt].
  - destruct (Rgt_dec (current_speed v - target_speed v)
                      (Rmax (target_speed v) (deceleration v))) as [Hex | Hlin].
    + split; [nra | intros _; nra].
    + split; [apply Rmax_r|].
      intros Hsign.
      apply Rmax_lub; [|lra].
      assert (Hd : 0 <= deceleration v).
      { destruct Hsign as [Hd | Ht]; [exact Hd|].
        destruct (Rle_dec 0 (deceleration v)) as [Hd | Hd]; [exact Hd|].
        exfalso. apply Hlin.
        apply Rmax_case; lra. }
      nra.
  - split; lra.
Qed.

(** Claim C1.  A tick with [dt = 1 / fps] in (0, 1] succeeds; when the
    speed exceeds the target by more than [max(target_speed, deceleration)]
    the new speed is [current_speed * (1 - dt) + target_speed * dt]; when it
    exceeds the target by no more than that, the new speed is
    [max(current_speed - deceleration * dt, target_speed)]; and in every
    case the one rotation the tick applies to the scene has the angle
    [rotation_direction * current_speed * 2 * pi * dt] taken at the updated
    speed, about the y axis. *)
Theorem auto_rotate_two_regimes (v : HoloViewer) (Hfps : 1 <= fps v) :
  let dt := 1 / fps v in
  0 < dt <= 1 /\
  exists v',
    _auto_rotate v = Some v' /\
    (current_speed v > target_speed v ->
     current_speed v - target_speed v
       > Rmax (target_speed v) (deceleration v) ->
     current_speed v' = current_speed v * (1 - dt) + target_speed v * dt) /\
    (current_speed v > target_speed v ->
     current_speed v - target_speed v
       <= Rmax (target_speed v) (deceleration v) ->
     current_speed v'
       = Rmax (current_speed v - deceleration v * dt) (target_speed v)) /\
    rotation_direction v' = rotation_direction v /\
    scene v' =
      scene v ++
      [rotation_matrix
         (IZR (rotation_direction v') * current_speed v' * 2 * PI * dt)
         (0, 1, 0)].
Proof.
  intros dt. split; [exact (delta_time_range _ Hfps)|].
  eexists. split; [apply auto_rotate_some; lra|].
  cbn [current_speed rotation_direction scene set_scene set_current_speed
       apply_transform].
  fold dt. unfold decelerate.
  repeat split.
  - intros Hgt Hex.
    destruct (Rgt_dec (current_speed v) (target_speed v)); [|contradiction].
    destruct (Rgt_dec (current_speed v - target_speed v)
                      (Rmax (target_speed v) (deceleration v)));
      [reflexivity | contradiction].
  - intros Hgt Hlin.
    destruct (Rgt_dec (current_speed v) (target_speed v)); [|contradiction].
    destruct (Rgt_dec (current_speed v - target_speed v)
                      (Rmax (target_speed v) (deceleration v)));
      [lra | reflexivity].
Qed.

Lemma auto_rotate_two_regimes_witness :
  1 <= fps (scenario_viewer 1 0 (25 / 100)) /\
  exists v',
    _auto_rotate (scenario_viewer 1 0 (25 / 100)) = Some v' /\
    current_speed v' = 1 * (1 - 1 / 24) + 0 * (1 / 24) /\
    scene v' =
      [rotation_matrix
         (IZR (rotation_direction v') * current_speed v' * 2 * PI * (1 / 24))
         (0, 1, 0)].
Proof.
  assert (H : 1 <= fps (scenario_viewer 1 0 (25 / 100))) by (simpl; lra).
  split; [exact H|].
  destruct (auto_rotate_two_regimes (scenario_viewer 1 0 (25 / 100)) H)
    as (_ & v' & Hrun & Hexp & _ & _ & Hscene).
  exists v'. split; [exact Hrun|]. split; [|exact Hscene].
  apply Hexp; simpl; [lra|].
  apply Rmax_case; lra.
Defined.

(** Speed 1.0, target 0, stop rate 0.25 at 24 frames per second: the excess
    1.0 exceeds 0.25, the tick takes the exponential branch to 23/24. *)
Example tick_exponential_scenario :
  exists v', _auto_rotate (scenario_viewer 1 0 (25 / 100)) = Some v' /\
             current_speed v' = 23 / 24.
Proof.
  eexists. split; [apply auto_rotate_some; simpl; lra|].
  cbn [current_speed set_scene set_current_speed].
  unfold decelerate. simpl.
  destruct (Rgt_dec 1 0) as [_ | N]; [|lra].
  destruct (Rgt_dec (1 - 0) (Rmax 0 (25 / 100))) as [_ | N].
  - lra.
  - exfalso. apply N. apply Rmax_case; lra.
Qed.

(** Speed 0.2, target 0.125, base rate 0.0125 at 24 frames per second: the
    excess 0.075 does not exceed 0.125, the tick takes the linear branch to
    [0.2 - 0.0125 / 24]. *)
Example tick_linear_scenario :
  exists v',
    _auto_rotate (scenario_viewer (2 / 10) (125 / 1000) (125 / 10000)) = Some v' /\
    current_speed v' = 2 / 10 - (125 / 10000) / 24.
Proof.
  eexists. split; [apply auto_rotate_some; simpl; lra|].
  cbn [current_speed set_scene set_current_speed].
  unfold decelerate. simpl.
  destruct (Rgt_dec (2 / 10) (125 / 1000)) as [_ | N]; [|lra].
  destruct (Rgt_dec (2 / 10 - 125 / 1000) (Rmax (125 / 1000) (125 / 10000)))
    as [Hex | _].
  - rewrite Rmax_left in Hex by lra. lra.
  - rewrite Rmax_left by lra. lra.
Qed.

(** Claim C2.  [swipe m] forms [signed_speed = m / 5 + current_speed *
    rotation_direction], sets the direction to +1 when that is not negative
    and to -1 otherwise, the speed to its absolute value, the target to
    [base_speed] and the rate to [base_deceleration]; the new speed is not
    negative and the new direction is +1 or -1.  Magnitude 2 received at
    speed 0 and direction +1 gives speed 0.4, direction +1 and target
    [base_speed].  (The claim's preconditions on the old state are not
    needed.) *)
Theorem swipe_combines_signed_speed (v : HoloViewer) (m : R) :
  let signed_speed := m / 5 + current_speed v * IZR (rotation_direction v) in
  rotation_direction (swipe m v)
    = (if Rge_dec signed_speed 0 then 1 else -1)%Z /\
  current_speed (swipe m v) = Rabs signed_speed /\
  target_speed (swipe m v) = base_speed v /\
  deceleration (swipe m v) = base_deceleration v /\
  0 <= current_speed (swipe m v) /\
  (rotation_direction (swipe m v) = 1%Z \/
   rotation_direction (swipe m v) = (-1)%Z) /\
  current_speed (swipe 2 (with_motion 0 1 v)) = 4 / 10 /\
  rotation_direction (swipe 2 (with_motion 0 1 v)) = 1%Z /\
  target_speed (swipe 2 (with_motion 0 1 v)) = base_speed v.
Proof.
  intros signed_speed.
  assert (Habs : current_speed (swipe m v) = Rabs signed_speed).
  { unfold swipe. cbn [current_speed]. fold signed_speed.
    destruct (Rge_dec signed_speed 0) as [Hge | Hlt].
    - rewrite Rabs_right by exact Hge. lra.
    - rewrite Rabs_left by lra. lra. }
  split; [reflexivity|].
  split; [exact Habs|].
  split; [reflexivity|].
  split; [reflexivity|].
  split; [rewrite Habs; apply Rabs_pos|].
  split.
  { unfold swipe. cbn [rotation_direction].
    destruct (Rge_dec _ 0); [left | right]; reflexivity. }
  unfold swipe, with_motion.
  cbn [current_speed rotation_direction target_speed base_speed].
  destruct (Rge_dec (2 / 5 + 0 * 1) 0) as [_ | N]; [|exfalso; lra].
  repeat split; lra.
Qed.

(** *** Coasting to a halt *)

Lemma decelerate_strict (dt : R) (v : HoloViewer) :
  0 < dt <= 1 ->
  target_speed v < current_speed v ->
  0 < deceleration v ->
  decelerate dt v < current_speed v.
Proof.
  intros [Hdt0 Hdt1] Hgt Hd. unfold decelerate.
  destruct (Rgt_dec (current_speed v) (target_speed v)) as [_ | N]; [|lra].
  destruct (Rgt_dec (current_speed v - target_speed v)
                    (Rmax (target_speed v) (deceleration v))).
  - nra.
  - apply Rmax_lub_lt; nra.
Qed.

(** Ticks change neither the frame rate, nor the target, nor the rates;
    towards a target of zero they keep the speed between zero and its
    previous value. *)
Lemma ticks_towards_zero (n : nat) :
  forall w : HoloViewer,
    1 <= fps w -> target_speed w = 0 -> 0 <= current_speed w ->
    exists w',
      ticks n w = Some w' /\
      fps w' = fps w /\
      target_speed w' = 0 /\
      deceleration w' = deceleration w /\
      0 <= current_speed w' <= current_speed w.
Proof.
  induction n as [|n IH]; intros w Hf Ht Hc.
  - exists w. simpl. repeat split; lra.
  - simpl. rewrite auto_rotate_some by lra.
    destruct (decelerate_bounds (1 / fps w) w (delta_time_range _ Hf))
      as [Hlo Hhi]; [lra|].
    specialize (Hhi (or_intror (Req_le _ _ Ht))).
    match goal with |- context [ticks n ?w1] => destruct (IH w1) as (w' & Hrun & Hf' & Ht' & Hd' & Hc') end;
      cbn [fps target_speed current_speed deceleration set_scene set_current_speed];
      try lra.
    exists w'. split; [exact Hrun|].
    cbn [fps target_speed current_speed deceleration set_scene set_current_speed] in *.
    repeat split; lra.
Qed.

(** Claim C7.  [stop_rotation] sets the target to 0 and the rate to
    [stop_deceleration]; from a speed that is not negative, every later
    tick with [dt = 1 / fps] in (0, 1] succeeds and yields a speed between 0
    and the speed before it (strictly below it while the speed is positive
    and [stop_deceleration] is), so the speed falls monotonically towards 0
    and never goes below it.  Any tick of any viewer whose speed does not
    exceed its target leaves the speed as it is. *)
Theorem stop_then_ticks_monotone (v : HoloViewer) (n : nat)
    (Hfps : 1 <= fps v) (Hcs : 0 <= current_speed v) :
  target_speed (stop_rotation v) = 0 /\
  deceleration (stop_rotation v) = stop_deceleration v /\
  current_speed (stop_rotation v) = current_speed v /\
  (exists v1 v2,
     ticks n (stop_rotation v) = Some v1 /\
     _auto_rotate v1 = Some v2 /\
     0 <= current_speed v2 <= current_speed v1 /\
     current_speed v1 <= current_speed v /\
     (0 < stop_deceleration v -> 0 < current_speed v1 ->
      current_speed v2 < current_speed v1)) /\
  (forall w w',
     _auto_rotate w = Some w' ->
     current_speed w <= target_speed w ->
     current_speed w' = current_speed w).
Proof.
  split; [reflexivity|]. split; [reflexivity|]. split; [reflexivity|].
  split.
  - destruct (ticks_towards_zero n (stop_rotation v))
      as (v1 & Hrun & Hf1 & Ht1 & Hd1 & Hc1); try (simpl; lra).
    cbn [fps current_speed deceleration stop_rotation] in Hf1, Hd1, Hc1.
    assert (Hf : 1 <= fps v1) by lra.
    pose proof (delta_time_range _ Hf) as Hdt.
    destruct (decelerate_bounds (1 / fps v1) v1 Hdt) as [Hlo Hhi]; [lra|].
    specialize (Hhi (or_intror (Req_le _ _ Ht1))).
    eexists v1, _. split; [exact Hrun|].
    split; [apply auto_rotate_some; lra|].
    cbn [current_speed set_scene set_current_speed].
    split; [lra|]. split; [lra|].
    intros Hsd Hpos. apply decelerate_strict; lra.
  - intros w w' Hrun Hle.
    unfold _auto_rotate in Hrun.
    destruct (Req_dec_T (fps w) 0); [discriminate|].
    injection Hrun as <-.
    cbn [current_speed set_scene set_current_speed].
    unfold decelerate.
    destruct (Rgt_dec (current_speed w) (target_speed w)); [lra | reflexivity].
Qed.

Lemma stop_then_ticks_monotone_witness :
  1 <= fps (scenario_viewer 1 (125 / 1000) (125 / 10000)) /\
  0 <= current_speed (scenario_viewer 1 (125 / 1000) (125 / 10000)) /\
  exists v1 v2,
    ticks 3 (stop_rotation (scenario_viewer 1 (125 / 1000) (125 / 10000)))
      = Some v1 /\
    _auto_rotate v1 = Some v2 /\
    0 <= current_speed v2 <= current_speed v1.
Proof.
  assert (Hf : 1 <= fps (scenario_viewer 1 (125 / 1000) (125 / 10000)))
    by (simpl; lra).
  assert (Hc : 0 <= current_speed (scenario_viewer 1 (125 / 1000) (125 / 10000)))
    by (simpl; lra).
  split; [exact Hf|]. split; [exact Hc|].
  destruct (stop_then_ticks_monotone _ 3%nat Hf Hc)
    as (_ & _ & _ & (v1 & v2 & Hrun & Hstep & Hbound & _) & _).
  exists v1, v2. split; [exact Hrun|]. split; [exact Hstep | exact Hbound].
Defined.

End Rotation.



(* ================================================================= *)
(** ** Vectors *)

Section Vectors.

Import Np.
Local Open Scope R_scope.

Lemma dot_self_nonneg (d : vec3) : 0 <= dot d d.
Proof. destruct d as [[d0 d1] d2]. unfold dot. nra. Qed.

Lemma norm_zero_vector : norm (0, 0, 0) = 0.
Proof.
  unfold norm, dot. replace (0 * 0 + 0 * 0 + 0 * 0) with 0 by ring. apply sqrt_0.
Qed.

Lemma norm_nonneg (d : vec3) : 0 <= norm d.
Proof. apply sqrt_pos. Qed.

(** Only the zero vector has length zero. *)
Lemma norm_nonzero (d : vec3) : d <> (0, 0, 0) -> norm d <> 0.
Proof.
  intros Hd Hs.
  apply sqrt_eq_0 in Hs; [|apply dot_self_nonneg].
  apply Hd. destruct d as [[d0 d1] d2]. unfold dot in Hs.
  assert (d0 = 0) by nra.
  assert (d1 = 0) by nra.
  assert (d2 = 0) by nra.
  subst. reflexivity.
Qed.

(** A vector divided by its length, when that is not zero, has length one. *)
Lemma vdiv_norm_dot (d : vec3) :
  norm d <> 0 -> dot (vdiv d (norm d)) (vdiv d (norm d)) = 1.
Proof.
  intros Hn.
  pose proof (sqrt_sqrt _ (dot_self_nonneg d)) as Hsq.
  unfold norm in *.
  destruct d as [[d0 d1] d2].
  unfold vdiv. cbn [dot] in *.
  set (n := sqrt (d0 * d0 + d1 * d1 + d2 * d2)) in *.
  replace (d0 / n * (d0 / n) + d1 / n * (d1 / n) + d2 / n * (d2 / n))
    with ((d0 * d0 + d1 * d1 + d2 * d2) / (n * n)) by (field; exact Hn).
  rewrite Hsq. field. rewrite <- Hsq. nra.
Qed.

Lemma vdiv_norm_unit (d : vec3) : norm d <> 0 -> norm (vdiv d (norm d)) = 1.
Proof.
  intros Hn. unfold norm at 1. rewrite (vdiv_norm_dot d Hn). apply sqrt_1.
Qed.

End Vectors.

(* ================================================================= *)
(** ** The camera pose controller *)

Section Camera.

Import Np View3D.
Local Open Scope R_scope.

(** Split an equation between tuples into its components. *)
Ltac pair_eq :=
  repeat match goal with
         | |- (_, _) = (_, _) => apply f_equal2
         end.

(** [unit_vector] of a vector other than zero has length one. *)
Lemma unit_vector_dot (d : vec3) :
  d <> (0, 0, 0) -> dot (unit_vector d) (unit_vector d) = 1.
Proof.
  intros Hd. exact (vdiv_norm_dot d (norm_nonzero d Hd)).
Qed.

Lemma mmul_identity_l (m : mat3) : mmul identity m = m.
Proof.
  destruct m as [[[[a b] c] [[d e] f]] [[g h] i]].
  cbv beta iota zeta delta [mmul identity col0 col1 col2 dot].
  pair_eq; ring.
Qed.

Lemma mmul_assoc (a b c : mat3) : mmul a (mmul b c) = mmul (mmul a b) c.
Proof.
  destruct a as [[[[a0 a1] a2] [[a3 a4] a5]] [[a6 a7] a8]].
  destruct b as [[[[b0 b1] b2] [[b3 b4] b5]] [[b6 b7] b8]].
  destruct c as [[[[c0 c1] c2] [[c3 c4] c5]] [[c6 c7] c8]].
  cbv beta iota zeta delta [mmul col0 col1 col2 dot].
  pair_eq; ring.
Qed.

(** A rotation about a unit vector followed by the rotation by the opposite
    angle about the same vector is the identity, in either order. *)
Lemma rotation_about_inverse (angle : R) (u : vec3) :
  dot u u = 1 ->
  mmul (rotation_about angle u) (rotation_about (- angle) u) = identity.
Proof.
  intros Hu.
  pose proof (sin2_cos2 angle) as Hsc. unfold Rsqr in Hsc.
  destruct u as [[u0 u1] u2]. unfold dot in Hu.
  unfold rotation_about. rewrite sin_neg, cos_neg.
  set (s := sin angle) in *. set (c := cos angle) in *.
  cbv beta iota zeta delta [mmul identity col0 col1 col2 dot].
  pair_eq; nsatz.
Qed.

Lemma scene_matrix_app (sc : Scene) (t : transform) :
  scene_matrix (apply_transform t sc) =
    match scene_matrix sc, matrix_of t with
    | Some m, Some r => Some (mmul r m)
    | _, _ => None
    end.
Proof. unfold scene_matrix, apply_transform. rewrite fold_left_app. reflexivity. Qed.

Lemma matrix_of_nonzero (angle : R) (d : vec3) :
  d <> (0, 0, 0) ->
  matrix_of (rotation_matrix angle d) = Some (rotation_about angle (unit_vector d)).
Proof.
  intros Hd. unfold matrix_of.
  destruct (Req_dec_T (sqrt (dot d d)) 0) as [E | _]; [|reflexivity].
  exfalso. exact (norm_nonzero d Hd E).
Qed.

Lemma matrix_of_zero (angle : R) : matrix_of (rotation_matrix angle (0, 0, 0)) = None.
Proof.
  unfold matrix_of.
  destruct (Req_dec_T (sqrt (dot (0, 0, 0) (0, 0, 0))) 0) as [_ | N];
    [reflexivity|].
  exfalso. exact (N norm_zero_vector).
Qed.

(** Between poses with directions other than zero the net transform stays
    a matrix of numbers. *)
Lemma set_camera_angle_defined (angle : R) (direction : vec3) (v : HoloViewer)
    (m : mat3) :
  scene_matrix (scene v) = Some m ->
  camera_current_direction v <> (0, 0, 0) ->
  direction <> (0, 0, 0) ->
  exists m', scene_matrix (scene (set_camera_angle angle direction v)) = Some m'.
Proof.
  intros Hm Hold Hnew. unfold set_camera_angle. cbn [scene].
  rewrite !scene_matrix_app, Hm, !matrix_of_nonzero by assumption.
  eexists. reflexivity.
Qed.

(** Claim C3, as the code has it.  [set_camera_angle] is total and has no
    test on its arguments: for every angle, direction and viewer it applies
    exactly two rotations to the scene, the stored pose with the angle
    negated and then the new pose, and stores the new pose; the motion state
    is untouched.  With the zero vector as direction nothing is skipped: the
    rotation about it is recorded like any other, and the net transform of
    the scene is no longer a matrix of numbers. *)
Theorem set_camera_angle_always_applies (angle : R) (direction : vec3)
    (v : HoloViewer) :
  scene (set_camera_angle angle direction v) =
    scene v ++
    [rotation_matrix (- camera_current_angle v) (camera_current_direction v);
     rotation_matrix angle direction] /\
  camera_current_angle (set_camera_angle angle direction v) = angle /\
  camera_current_direction (set_camera_angle angle direction v) = direction /\
  current_speed (set_camera_angle angle direction v) = current_speed v /\
  rotation_direction (set_camera_angle angle direction v) = rotation_direction v /\
  scene (set_camera_angle angle (0, 0, 0) v) =
    scene v ++
    [rotation_matrix (- camera_current_angle v) (camera_current_direction v);
     rotation_matrix angle (0, 0, 0)] /\
  scene_matrix (scene (set_camera_angle angle (0, 0, 0) v)) = None.
Proof.
  assert (Hsc : forall d,
             scene (set_camera_angle angle d v) =
               scene v ++
               [rotation_matrix (- camera_current_angle v)
                  (camera_current_direction v);
                rotation_matrix angle d]).
  { intros d. unfold set_camera_angle, apply_transform. cbn [scene].
    rewrite <- app_assoc. reflexivity. }
  split; [apply Hsc|].
  repeat (split; [reflexivity|]).
  split; [apply Hsc|].
  unfold set_camera_angle. cbn [scene].
  rewrite scene_matrix_app, matrix_of_zero.
  destruct (scene_matrix _); reflexivity.
Qed.

(** Claim C3 as stated fails: called with the zero vector on a fresh viewer,
    [set_camera_angle] does not leave the scene alone; it records the undo
    of the initial pose and the rotation about the zero vector. *)
Lemma set_camera_angle_zero_not_skipped :
  scene (set_camera_angle 0 (0, 0, 0) (init_default [])) <> scene (init_default [])
  /\ scene (set_camera_angle 0 (0, 0, 0) (init_default [])) =
       [rotation_matrix (- 0) (0, 1, 0); rotation_matrix 0 (0, 0, 0)].
Proof.
  split; [|reflexivity].
  cbn. discriminate.
Qed.

(** Claim C9.  For a direction other than the zero vector, a second
    [set_camera_angle] with the same angle and direction leaves the net
    transform of the scene as the first call left it: the rotation by the
    negated angle that undoes the stored pose and the rotation that applies
    it again multiply to the identity.  The stored pose is the same too. *)
Theorem set_camera_angle_twice (angle : R) (direction : vec3) (v : HoloViewer)
    (Hdir : direction <> (0, 0, 0)) :
  let v1 := set_camera_angle angle direction v in
  let v2 := set_camera_angle angle direction v1 in
  scene_matrix (scene v2) = scene_matrix (scene v1) /\
  matrix_of (rotation_matrix angle direction)
    = Some (rotation_about angle (unit_vector direction)) /\
  matrix_of (rotation_matrix (- angle) direction)
    = Some (rotation_about (- angle) (unit_vector direction)) /\
  mmul (rotation_about angle (unit_vector direction))
       (rotation_about (- angle) (unit_vector direction)) = identity /\
  camera_current_angle v2 = camera_current_angle v1 /\
  camera_current_direction v2 = camera_current_direction v1.
Proof.
  intros v1 v2.
  pose proof (rotation_about_inverse angle _ (unit_vector_dot _ Hdir)) as Hinv.
  split; [|auto using matrix_of_nonzero].
  unfold v2. unfold set_camera_angle at 1.
  cbn [scene].
  replace (camera_current_angle v1) with angle by reflexivity.
  replace (camera_current_direction v1) with direction by reflexivity.
  rewrite !scene_matrix_app, !matrix_of_nonzero by exact Hdir.
  destruct (scene_matrix (scene v1)) as [m|]; [|reflexivity].
  rewrite mmul_assoc, Hinv, mmul_identity_l. reflexivity.
Qed.

Lemma set_camera_angle_twice_witness :
  (1, 0, 0) <> (0, 0, 0) /\
  (exists m,
     scene_matrix (scene (set_camera_angle 1 (1, 0, 0) (init_default [])))
     = Some m) /\
  scene_matrix
    (scene (set_camera_angle 1 (1, 0, 0)
              (set_camera_angle 1 (1, 0, 0) (init_default []))))
  = scene_matrix (scene (set_camera_angle 1 (1, 0, 0) (init_default []))).
Proof.
  assert (H : (1, 0, 0) <> (0, 0, 0)).
  { intros E. injection E as E. lra. }
  assert (H0 : camera_current_direction (init_default []) <> (0, 0, 0)).
  { cbn. intros E. injection E as E. lra. }
  split; [exact H|]. split.
  - exact (set_camera_angle_defined 1 (1, 0, 0) (init_default []) identity
             eq_refl H0 H).
  - exact (proj1 (set_camera_angle_twice 1 (1, 0, 0) (init_default []) H)).
Defined.

End Camera.


(* ================================================================= *)
(** ** The gaze mapper *)

Section Gaze.

Import Np Eyes.
Local Open Scope R_scope.

(** With a positive second argument [arctan2] is the arc tangent of the
    quotient. *)
Lemma arctan2_pos (b a : R) : 0 < a -> arctan2 b a = atan (b / a).
Proof.
  intros Ha. unfold arctan2.
  destruct (Rlt_dec 0 a) as [_ | N]; [reflexivity | contradiction].
Qed.

Lemma arctan2_zero (a : R) : 0 < a -> arctan2 0 a = 0.
Proof.
  intros Ha. rewrite arctan2_pos by exact Ha.
  unfold Rdiv. rewrite Rmult_0_l. apply atan_0.
Qed.

Example arctan2_diagonal : arctan2 1 1 = PI / 4.
Proof.
  rewrite arctan2_pos by lra.
  replace (1 / 1) with 1 by field. apply atan_1.
Qed.

Example arctan2_upwards : arctan2 1 0 = PI / 2.
Proof.
  unfold arctan2.
  destruct (Rlt_dec 0 0) as [H | _]; [lra|].
  destruct (Rlt_dec 0 1) as [_ | N]; [reflexivity | lra].
Qed.

Example arctan2_backwards : arctan2 0 (-1) = PI.
Proof.
  unfold arctan2.
  destruct (Rlt_dec 0 (-1)) as [H | _]; [lra|].
  destruct (Rlt_dec (-1) 0) as [_ | N]; [|lra].
  destruct (Rle_dec 0 0) as [_ | N]; [|lra].
  unfold Rdiv. rewrite Rmult_0_l, atan_0. ring.
Qed.

(** The direction [compute_gaze_rotation] returns, from pitch and yaw. *)
Lemma normalised_direction (pitch yaw : R) :
  let d := (pitch, yaw, 0) in
  let r := if Rlt_dec 0 (norm d) then vdiv d (norm d) else d in
  (d <> (0, 0, 0) -> r = vdiv d (norm d) /\ norm r = 1) /\
  (d = (0, 0, 0) -> r = (0, 0, 0) /\ norm r = 0).
Proof.
  intros d r. split.
  - intros Hd. pose proof (norm_nonzero d Hd) as Hn.
    pose proof (norm_nonneg d) as Hp.
    unfold r. destruct (Rlt_dec 0 (norm d)) as [_ | N]; [|lra].
    split; [reflexivity | apply vdiv_norm_unit; exact Hn].
  - intros Hd. unfold r. rewrite Hd, norm_zero_vector.
    destruct (Rlt_dec 0 0) as [H | _]; [lra|].
    split; [reflexivity | apply norm_zero_vector].
Qed.

(** Claim C8.  For a positive [distance_cm], [compute_gaze_rotation]
    returns the angle [- sqrt(yaw^2 + pitch^2)], where yaw and pitch are
    [arctan2] of the centimetre offsets from the screen centre and of the
    baseline plus [distance_cm] (there, the arc tangent of the quotient);
    the direction is [(pitch, yaw, 0)] divided by its length when that
    vector is not zero, and the zero vector otherwise; so the length of the
    returned direction is 0 or 1. *)
Theorem compute_gaze_rotation_unit (screen_x screen_y : Z) (distance_cm : R)
    (Hdist : 0 < distance_cm) :
  let dx_cm := (IZR screen_x - 1920 / 2) / 1920 * SCREEN_WIDTH_CM in
  let dy_cm := (IZR screen_y - 1080 / 2) / 1080 * SCREEN_HEIGHT_CM in
  let yaw := arctan2 dx_cm (SCENE_SCREEN_DISTANCE_CM + distance_cm) in
  let pitch := arctan2 dy_cm (SCENE_SCREEN_DISTANCE_CM + distance_cm) in
  let angle := fst (compute_gaze_rotation screen_x screen_y distance_cm) in
  let direction := snd (compute_gaze_rotation screen_x screen_y distance_cm) in
  yaw = atan (dx_cm / (SCENE_SCREEN_DISTANCE_CM + distance_cm)) /\
  pitch = atan (dy_cm / (SCENE_SCREEN_DISTANCE_CM + distance_cm)) /\
  angle = - sqrt (yaw ^ 2 + pitch ^ 2) /\
  ((pitch, yaw, 0) <> (0, 0, 0) ->
   direction = vdiv (pitch, yaw, 0) (norm (pitch, yaw, 0))) /\
  ((pitch, yaw, 0) = (0, 0, 0) -> direction = (0, 0, 0)) /\
  (norm direction = 0 \/ norm direction = 1).
Proof.
  intros dx_cm dy_cm yaw pitch angle direction.
  assert (Hpos : 0 < SCENE_SCREEN_DISTANCE_CM + distance_cm)
    by (unfold SCENE_SCREEN_DISTANCE_CM; lra).
  split; [apply arctan2_pos; exact Hpos|].
  split; [apply arctan2_pos; exact Hpos|].
  split; [reflexivity|].
  destruct (normalised_direction pitch yaw) as [Hnz Hz].
  assert (Hdir : direction =
                 if Rlt_dec 0 (norm (pitch, yaw, 0))
                 then vdiv (pitch, yaw, 0) (norm (pitch, yaw, 0))
                 else (pitch, yaw, 0)) by reflexivity.
  rewrite Hdir.
  split; [intros H; exact (proj1 (Hnz H))|].
  split; [intros H; exact (proj1 (Hz H))|].
  destruct (Req_dec_T pitch 0) as [Hp | Hp];
    [destruct (Req_dec_T yaw 0) as [Hy | Hy]|].
  - left. apply Hz. rewrite Hp, Hy. reflexivity.
  - right. apply Hnz. intros E. apply Hy. injection E as _ E. exact E.
  - right. apply Hnz. intros E. apply Hp. injection E as E _. exact E.
Qed.

Lemma compute_gaze_rotation_unit_witness :
  0 < 60 /\
  (norm (snd (compute_gaze_rotation 1200 300 60)) = 0 \/
   norm (snd (compute_gaze_rotation 1200 300 60)) = 1).
Proof.
  assert (H : 0 < 60) by lra.
  split; [exact H|].
  exact (proj2 (proj2 (proj2 (proj2 (proj2
           (compute_gaze_rotation_unit 1200 300 60 H)))))).
Defined.

(** A gaze point at the centre of the 1920x1080 screen gives the angle 0 and
    the zero direction. *)
Example gaze_at_screen_centre (distance_cm : R) :
  0 < distance_cm ->
  compute_gaze_rotation 960 540 distance_cm = (0, (0, 0, 0)).
Proof.
  intros Hd. unfold compute_gaze_rotation.
  cbn [fst snd SCREEN_RESOLUTION].
  replace ((960 - 1920 / 2) / 1920 * SCREEN_WIDTH_CM) with 0
    by (unfold SCREEN_WIDTH_CM; lra).
  replace ((540 - 1080 / 2) / 1080 * SCREEN_HEIGHT_CM) with 0
    by (unfold SCREEN_HEIGHT_CM; lra).
  rewrite arctan2_zero by (unfold SCENE_SCREEN_DISTANCE_CM; lra).
  rewrite norm_zero_vector.
  destruct (Rlt_dec 0 0) as [H | _]; [lra|].
  replace (0 ^ 2 + 0 ^ 2) with 0 by ring.
  rewrite sqrt_0, Ropp_0. reflexivity.
Qed.

End Gaze.

(* ================================================================= *)
(** ** The distance estimate *)

Section Distance.

Import Np Eyes.
Local Open Scope R_scope.

Lemma FOCAL_LENGTH_PX_pos : 0 < IPD_REAL_CM * FOCAL_LENGTH_PX.
Proof.
  unfold IPD_REAL_CM, FOCAL_LENGTH_PX, FOCAL_LENGTH_MM, SENSOR_WIDTH_MM,
    CAMERA_WIDTH.
  apply Rmult_lt_0_compat; [lra|].
  apply Rmult_lt_0_compat; [|lra].
  apply Rdiv_lt_0_compat; [lra|].
  apply Rmult_lt_0_compat; [|lra].
  apply Rmult_lt_0_compat; [|lra].
  apply Rdiv_lt_0_compat; lra.
Qed.

(** The pixel distance between the eye centres is zero exactly when the two
    pixel positions coincide. *)
Lemma ipd_px_zero_iff (left right : Z * Z) :
  ipd_px_of left right = 0 <-> left = right.
Proof.
  destruct left as [lx ly], right as [rx ry].
  unfold ipd_px_of. cbn [fst snd].
  split.
  - intros H. apply sqrt_eq_0 in H; [|nra].
    assert (Hx : IZR (lx - rx) = 0) by nra.
    assert (Hy : IZR (ly - ry) = 0) by nra.
    apply eq_IZR_R0 in Hx. apply eq_IZR_R0 in Hy.
    f_equal; lia.
  - intros E. injection E as -> ->.
    rewrite !Z.sub_diag. replace (0 * 0 + 0 * 0) with 0 by ring. apply sqrt_0.
Qed.

Lemma ipd_px_nonneg (left right : Z * Z) : 0 <= ipd_px_of left right.
Proof. apply sqrt_pos. Qed.

(** [int] lies between the integer below and the value, for a value that
    is not negative, and mirrors that for a negative one: it truncates
    towards zero. *)
Lemma int_truncates (v : R) :
  (0 <= v -> IZR (int v) <= v < IZR (int v) + 1) /\
  (v < 0 -> IZR (int v) - 1 < v <= IZR (int v)).
Proof.
  unfold int. split; intros Hv.
  - destruct (Rle_dec 0 v) as [_ | N]; [|contradiction].
    destruct (base_Int_part v) as [H1 H2]. lra.
  - destruct (Rle_dec 0 v) as [H | _]; [lra|].
    destruct (base_Int_part (- v)) as [H1 H2].
    rewrite opp_IZR. lra.
Qed.

Example int_of_positive : int (5 / 2) = 2%Z.
Proof.
  destruct (int_truncates (5 / 2)) as [H _].
  specialize (H ltac:(lra)).
  destruct H as [H1 H2].
  assert (Hlo : (1 < int (5 / 2))%Z) by (apply lt_IZR; lra).
  assert (Hhi : (int (5 / 2) < 3)%Z) by (apply lt_IZR; lra).
  lia.
Qed.

Example int_of_negative : int (- 5 / 2) = (-2)%Z.
Proof.
  destruct (int_truncates (- 5 / 2)) as [_ H].
  specialize (H ltac:(lra)).
  destruct H as [H1 H2].
  assert (Hlo : (-3 < int (- 5 / 2))%Z) by (apply lt_IZR; lra).
  assert (Hhi : (int (- 5 / 2) < -1)%Z) by (apply lt_IZR; lra).
  lia.
Qed.

(** The distance [track] hands to the callback is always the result of
    [estimate_distance] on the pixel distance of the two eye centres. *)
Lemma track_face_distance (landmarks : FaceLandmarks) :
  snd (track_face landmarks) =
    estimate_distance
      (ipd_px_of (fst (eye_pixels landmarks)) (snd (eye_pixels landmarks))).
Proof.
  unfold track_face.
  destruct (eye_pixels landmarks) as [[lx ly] [rx ry]]. reflexivity.
Qed.

Lemma collapsed_face_pixels :
  fst (eye_pixels collapsed_face) = snd (eye_pixels collapsed_face).
Proof. reflexivity. Qed.

(** Claim C4, as the code has it.  [track] has no test for coinciding eye
    centres: it invokes the callback once for every detected face, always
    with the result of [estimate_distance].  That result is the finite,
    positive [IPD_REAL_CM * FOCAL_LENGTH_PX / ipd_px] when the two pixel
    positions differ, and the non-finite outcome of the division by zero
    when they coincide. *)
Theorem track_never_skips_distance (multi_face_landmarks : list FaceLandmarks) :
  length (track multi_face_landmarks) = length multi_face_landmarks /\
  track multi_face_landmarks = map track_face multi_face_landmarks /\
  forall landmarks : FaceLandmarks,
    let left := fst (eye_pixels landmarks) in
    let right := snd (eye_pixels landmarks) in
    let distance_cm := snd (track_face landmarks) in
    (left = right -> distance_cm = inf) /\
    (left <> right ->
     distance_cm
       = finite (IPD_REAL_CM * FOCAL_LENGTH_PX / ipd_px_of left right) /\
     0 < IPD_REAL_CM * FOCAL_LENGTH_PX / ipd_px_of left right).
Proof.
  split; [apply length_map|]. split; [reflexivity|].
  intros landmarks left right distance_cm.
  unfold distance_cm. rewrite track_face_distance. fold left right.
  unfold estimate_distance.
  pose proof (ipd_px_zero_iff left right) as Hz.
  pose proof (ipd_px_nonneg left right) as Hp.
  destruct (Req_dec_T (ipd_px_of left right) 0) as [E | N].
  - split; [reflexivity|]. intros Hne. exfalso. apply Hne, Hz, E.
  - split.
    + intros Heq. exfalso. apply N, Hz, Heq.
    + intros _. split; [reflexivity|].
      apply Rdiv_lt_0_compat; [apply FOCAL_LENGTH_PX_pos | lra].
Qed.

(** Claim C4 as stated fails: on a face whose two eye centres fall on the
    same pixel the estimate is not skipped; the callback is invoked, and
    the distance it receives is not finite. *)
Lemma track_collapsed_face_not_finite :
  fst (eye_pixels collapsed_face) = snd (eye_pixels collapsed_face) /\
  length (track [collapsed_face]) = 1%nat /\
  map (fun c => is_finite (snd c)) (track [collapsed_face]) = [false].
Proof.
  split; [exact collapsed_face_pixels|]. split; [reflexivity|].
  unfold track. cbn [map]. rewrite track_face_distance.
  rewrite (proj2 (ipd_px_zero_iff _ _) collapsed_face_pixels).
  unfold estimate_distance.
  destruct (Req_dec_T 0 0) as [_ | N]; [reflexivity | contradiction].
Qed.

End Distance.

(* ================================================================= *)
(** ** The gesture classifier *)

Section Gestures.

Import Hands.
Local Open Scope Q_scope.

Lemma Qgtb_true (a b : Q) : Qgtb a b = true <-> b < a.
Proof.
  unfold Qgtb. rewrite negb_true_iff.
  split.
  - intros H. apply Qnot_le_lt. intros Hle.
    apply Qle_bool_iff in Hle. congruence.
  - intros H. destruct (Qle_bool a b) eqn:E; [|reflexivity].
    apply Qle_bool_iff in E. apply Qlt_not_le in H. contradiction.
Qed.

Lemma Qgtb_false (a b : Q) : Qgtb a b = false <-> a <= b.
Proof.
  unfold Qgtb. rewrite negb_false_iff. apply Qle_bool_iff.
Qed.

Variable cfg : HandConfig.

Lemma handle_swipe_outcome (hand : HandLandmarks) (t : Q) (s : HandTracker) :
  outcome cfg t s (fst (handle_swipe cfg hand t s)) (snd (handle_swipe cfg hand t s)).
Proof.
  unfold handle_swipe.
  destruct (prev_x s) as [px|]; [|left; split; reflexivity].
  destruct (Qgtb (Qabs (x (hand 0%nat) - px)) (SWIPE_THRESHOLD cfg)
            && Qgtb (t - last_gesture_time s) (GESTURE_COOLDOWN cfg)) eqn:E.
  - right. apply andb_true_iff in E. destruct E as [_ E].
    apply Qgtb_true in E.
    eexists. cbn. repeat split. exact E.
  - left. split; reflexivity.
Qed.

Lemma handle_stop_gesture_outcome (hand : HandLandmarks) (t : Q) (s : HandTracker) :
  outcome cfg t s (fst (handle_stop_gesture cfg hand t s))
              (snd (handle_stop_gesture cfg hand t s)).
Proof.
  unfold handle_stop_gesture.
  match goal with |- context [if ?b then _ else _] => destruct b eqn:E end.
  - right. apply andb_true_iff in E. destruct E as [_ E].
    apply Qgtb_true in E.
    eexists. cbn. repeat split. exact E.
  - left. split; reflexivity.
Qed.

(** Without a previous position the swipe detector emits nothing and only
    records the position. *)
Lemma handle_swipe_no_previous (hand : HandLandmarks) (t : Q) (s : HandTracker) :
  prev_x s = None ->
  handle_swipe cfg hand t s = (set_prev_x (Some (x (hand 0%nat))) s, []).
Proof. intros H. unfold handle_swipe. rewrite H. reflexivity. Qed.

Hypothesis cooldown_nonneg : 0 <= GESTURE_COOLDOWN cfg.

(** Two detectors in a row at the same frame time behave as one: once the
    first has fired, the clock equals the frame time and the second
    cannot. *)
Lemma outcome_seq (t : Q) (s s1 s2 : HandTracker) (o1 o2 : list Callback) :
  outcome cfg t s s1 o1 -> outcome cfg t s1 s2 o2 -> outcome cfg t s s2 (o1 ++ o2).
Proof.
  intros [[-> H1] | (c1 & -> & H1 & Hc1)] [[-> H2] | (c2 & -> & H2 & Hc2)].
  - left. split; [reflexivity | congruence].
  - right. exists c2. rewrite <- H1. repeat split; assumption.
  - right. exists c1. repeat split; [congruence | exact Hc1].
  - exfalso. rewrite H1 in Hc2.
    assert (Hz : t - t == 0) by ring.
    rewrite Hz in Hc2.
    apply (Qlt_irrefl 0). eapply Qle_lt_trans; eassumption.
Qed.

Lemma for_hands_outcome (hands : list HandLandmarks) (t : Q) :
  forall s, outcome cfg t s (fst (for_hands cfg hands t s))
                        (snd (for_hands cfg hands t s)).
Proof.
  induction hands as [|hand rest IH]; intros s.
  - left. split; reflexivity.
  - cbn [for_hands].
    pose proof (handle_swipe_outcome hand t s) as H1.
    destruct (handle_swipe cfg hand t s) as [s1 o1].
    pose proof (handle_stop_gesture_outcome hand t s1) as H2.
    destruct (handle_stop_gesture cfg hand t s1) as [s2 o2].
    specialize (IH s2).
    destruct (for_hands cfg rest t s2) as [s3 o3].
    cbn [fst snd] in *.
    eapply outcome_seq; [exact H1|].
    eapply outcome_seq; eassumption.
Qed.

(** A whole frame, hands or none, has one of the two outcomes. *)
Lemma track_outcome (fr : Frame) (s : HandTracker) :
  outcome cfg (current_time fr) s (fst (track cfg fr s)) (snd (track cfg fr s)).
Proof.
  unfold track.
  destruct (multi_hand_landmarks fr) as [|hand rest].
  - match goal with |- context [if ?b then _ else _] => destruct b end;
      left; split; reflexivity.
  - match goal with |- context [for_hands cfg ?hs ?t ?s0] =>
      pose proof (for_hands_outcome hs t s0) as H end.
    destruct H as [[Ho Hl] | (c & Ho & Hl & Hc)].
    + left. split; [exact Ho | exact Hl].
    + right. exists c. repeat split; assumption.
Qed.

End Gestures.

(* ================================================================= *)
(** ** Cooldown and priority of gestures *)

Section Cooldown.

Import Hands.
Local Open Scope Q_scope.



(** A movement of 0.2 is reported with magnitude 2.0. *)
Example swipe_magnitude_rounding : round2 (Qabs (2 # 10) * 10) = 200 # 100.
Proof. vm_compute. reflexivity. Qed.

(** [round] sends ties to the even neighbour. *)
Example round2_ties_to_even :
  round2 (1235 # 1000) = 124 # 100 /\ round2 (1245 # 1000) = 124 # 100.
Proof. split; vm_compute; reflexivity. Qed.

(** Of the two swipes 0.1 s apart only the first is emitted; the third
    movement, 0.6 s after the first, is emitted again. *)
Example sweep_emits_first_swipe_only :
  snd (run config sweep (init 9)) =
    [(101 # 10, swipe_callback (300 # 100));
     (107 # 10, swipe_callback (-400 # 100))].
Proof. vm_compute. reflexivity. Qed.

(** Claim C10.  Within one processed frame with a detected hand the tracker
    invokes at most one callback; so if it invokes [swipe_callback] it does
    not invoke [stop_callback] in that frame.  For each hand the swipe
    detector runs first, and when it fires it sets [last_gesture_time] to
    the frame time, after which the stop detector's cooldown test fails.
    (A cooldown of zero is enough; the claim asks for a positive one.) *)
Theorem swipe_excludes_stop_in_frame (cfg : HandConfig) (fr : Frame)
    (s : HandTracker) (Hcd : 0 <= GESTURE_COOLDOWN cfg)
    (Hhand : multi_hand_landmarks fr <> []) :
  let emitted := snd (track cfg fr s) in
  (length emitted <= 1)%nat /\
  (existsb is_swipe emitted = true ->
   existsb is_stop emitted = false /\
   last_gesture_time (fst (track cfg fr s)) = current_time fr) /\
  (forall (hand : HandLandmarks) (t : Q) (s0 : HandTracker),
     snd (handle_swipe cfg hand t s0) <> [] ->
     last_gesture_time (fst (handle_swipe cfg hand t s0)) = t /\
     snd (handle_stop_gesture cfg hand t (fst (handle_swipe cfg hand t s0))) = []).
Proof.
  intros emitted.
  pose proof (track_outcome cfg Hcd fr s) as Ho. fold emitted in Ho.
  split; [|split].
  - destruct Ho as [[-> _] | (c & -> & _)]; cbn; lia.
  - destruct Ho as [[-> _] | (c & -> & Hl & _)]; cbn; [discriminate|].
    destruct c; cbn; [|discriminate].
    intros _. split; [reflexivity | exact Hl].
  - intros hand t s0 Hne.
    pose proof (handle_swipe_outcome cfg hand t s0) as H1.
    pose proof (handle_stop_gesture_outcome cfg hand t
                  (fst (handle_swipe cfg hand t s0))) as H2.
    destruct H1 as [[He _] | (c & He & Hl & Hc)]; [contradiction|].
    split; [exact Hl|].
    destruct H2 as [[Hq _] | (c' & _ & _ & Hc')]; [exact Hq|].
    exfalso. rewrite Hl in Hc'.
    assert (Hz : t - t == 0) by ring.
    rewrite Hz in Hc'. lra.
Qed.

(** The first frame can only stop; in the second both detectors would fire
    and the swipe wins. *)
Example open_sweep_swipe_wins :
  snd (run config open_sweep (init 9)) =
    [(10, stop_callback); (11, swipe_callback (800 # 100))].
Proof. vm_compute. reflexivity. Qed.

Lemma swipe_excludes_stop_in_frame_witness :
  0 <= GESTURE_COOLDOWN config /\
  [hand_at (9 # 10) (9 # 10) (1 # 10)] <> [] /\
  existsb is_swipe
    (snd (track config (mkFrame 11 [hand_at (9 # 10) (9 # 10) (1 # 10)])
            (fst (run config [mkFrame 10 [hand_at (1 # 10) (9 # 10) (1 # 10)]]
                    (init 9))))) = true /\
  existsb is_stop
    (snd (track config (mkFrame 11 [hand_at (9 # 10) (9 # 10) (1 # 10)])
            (fst (run config [mkFrame 10 [hand_at (1 # 10) (9 # 10) (1 # 10)]]
                    (init 9))))) = false.
Proof.
  assert (H : 0 <= GESTURE_COOLDOWN config) by (vm_compute; discriminate).
  assert (Hh : [hand_at (9 # 10) (9 # 10) (1 # 10)] <> []) by discriminate.
  assert (Hs : existsb is_swipe
    (snd (track config (mkFrame 11 [hand_at (9 # 10) (9 # 10) (1 # 10)])
            (fst (run config [mkFrame 10 [hand_at (1 # 10) (9 # 10) (1 # 10)]]
                    (init 9))))) = true) by (vm_compute; reflexivity).
  split; [exact H|]. split; [exact Hh|]. split; [exact Hs|].
  exact (proj1 (proj1 (proj2
           (swipe_excludes_stop_in_frame config
              (mkFrame 11 [hand_at (9 # 10) (9 # 10) (1 # 10)])
              (fst (run config [mkFrame 10 [hand_at (1 # 10) (9 # 10) (1 # 10)]]
                      (init 9)))
              H Hh)) Hs)).
Defined.

End Cooldown.

(* ================================================================= *)
(** ** Loss of visibility *)

Section Visibility.

Import Hands.
Local Open Scope Q_scope.

Variable cfg : HandConfig.

(** The detectors never touch the visibility flag or [last_seen_time]. *)
Lemma for_hands_visibility (hands : list HandLandmarks) (t : Q) :
  forall s,
    hand_visible (fst (for_hands cfg hands t s)) = hand_visible s /\
    last_seen_time (fst (for_hands cfg hands t s)) = last_seen_time s.
Proof.
  induction hands as [|hand rest IH]; intros s; [split; reflexivity|].
  cbn [for_hands].
  assert (H1 : hand_visible (fst (handle_swipe cfg hand t s)) = hand_visible s /\
               last_seen_time (fst (handle_swipe cfg hand t s)) = last_seen_time s).
  { unfold handle_swipe.
    destruct (prev_x s); [|split; reflexivity].
    match goal with |- context [if ?b then _ else _] => destruct b end;
      split; reflexivity. }
  destruct (handle_swipe cfg hand t s) as [s1 o1].
  assert (H2 : hand_visible (fst (handle_stop_gesture cfg hand t s1)) = hand_visible s1 /\
               last_seen_time (fst (handle_stop_gesture cfg hand t s1)) = last_seen_time s1).
  { unfold handle_stop_gesture.
    match goal with |- context [if ?b then _ else _] => destruct b end;
      split; reflexivity. }
  destruct (handle_stop_gesture cfg hand t s1) as [s2 o2].
  specialize (IH s2).
  destruct (for_hands cfg rest t s2) as [s3 o3].
  cbn [fst snd] in *.
  destruct H1, H2, IH. split; congruence.
Qed.

(** After a frame with a hand the tracker is marked visible, last seen at
    that frame's time. *)
Lemma track_hand_seen (fr : Frame) (s : HandTracker) :
  multi_hand_landmarks fr <> [] ->
  hand_visible (fst (track cfg fr s)) = true /\
  last_seen_time (fst (track cfg fr s)) = current_time fr.
Proof.
  intros Hh. unfold track.
  destruct (multi_hand_landmarks fr) as [|hand rest]; [contradiction|].
  match goal with |- context [for_hands cfg ?hs ?t ?s0] =>
    destruct (for_hands_visibility hs t s0) as [Hv Hl] end.
  split; [rewrite Hv | rewrite Hl]; reflexivity.
Qed.



End Visibility.

Section Reacquisition.

Import Hands.
Local Open Scope Q_scope.




(** The reset is made only on a frame without a hand.  When the one such
    frame comes 1 s after the sighting and the hand is back after 2 s, the
    old wrist position is still there and the movement counts as a swipe. *)
Example stale_position_without_late_frame :
  snd (run config
         [ mkFrame 0 [hand_at (1 # 10) (5 # 10) (5 # 10)];
           mkFrame 1 [];
           mkFrame 2 [hand_at (9 # 10) (5 # 10) (5 # 10)] ]
         (init (-1)))
  = [(2, swipe_callback (800 # 100))].
Proof. vm_compute. reflexivity. Qed.

End Reacquisition.

(* ================================================================= *)
(** ** More on the inertial rotation controller *)

Section Inertia.

Import Np View3D.
Local Open Scope R_scope.

(** A tick keeps every attribute but the speed and the scene. *)
Lemma auto_rotate_frame (v v' : HoloViewer) :
  _auto_rotate v = Some v' ->
  fps v' = fps v /\
  target_speed v' = target_speed v /\
  deceleration v' = deceleration v /\
  base_speed v' = base_speed v /\
  base_deceleration v' = base_deceleration v /\
  stop_deceleration v' = stop_deceleration v /\
  rotation_direction v' = rotation_direction v /\
  camera_current_angle v' = camera_current_angle v /\
  camera_current_direction v' = camera_current_direction v /\
  current_speed v' = decelerate (1 / fps v) v.
Proof.
  unfold _auto_rotate.
  destruct (Req_dec_T (fps v) 0); [discriminate|].
  intros H. injection H as <-. repeat split.
Qed.

Lemma ticks_S (n : nat) (v : HoloViewer) :
  fps v <> 0 ->
  ticks (S n) v =
    ticks n (set_scene
               (apply_transform
                  (rotation_matrix
                     (IZR (rotation_direction v) * decelerate (1 / fps v) v
                      * 2 * PI * (1 / fps v))
                     (0, 1, 0))
                  (scene v))
               (set_current_speed (decelerate (1 / fps v) v) v)).
Proof. intros Hf. cbn [ticks]. rewrite auto_rotate_some by exact Hf. reflexivity. Qed.

Lemma ticks_add (n m : nat) :
  forall v v1, ticks n v = Some v1 -> ticks (n + m) v = ticks m v1.
Proof.
  induction n as [|n IH]; intros v v1 H.
  - injection H as <-. reflexivity.
  - cbn [ticks Nat.add] in *.
    destruct (_auto_rotate v) as [w|]; [|discriminate].
    apply IH. exact H.
Qed.

(** [n] ticks keep the attributes a tick keeps, and move the speed down
    towards the target without crossing it. *)
Lemma ticks_decay (n : nat) :
  forall v : HoloViewer,
    1 <= fps v -> 0 <= deceleration v ->
    exists v',
      ticks n v = Some v' /\
      fps v' = fps v /\
      target_speed v' = target_speed v /\
      deceleration v' = deceleration v /\
      rotation_direction v' = rotation_direction v /\
      current_speed v' <= current_speed v /\
      (target_speed v <= current_speed v ->
       target_speed v <= current_speed v') /\
      (current_speed v <= target_speed v ->
       current_speed v' = current_speed v).
Proof.
  induction n as [|n IH]; intros v Hf Hd.
  - exists v. cbn. repeat split; try lra.
  - rewrite ticks_S by lra.
    pose proof (delta_time_range _ Hf) as Hdt.
    match goal with |- context [ticks n ?w] =>
      destruct (IH w) as (v' & Hrun & Hf' & Ht' & Hd' & Hr' & Hle & Hge & Heq)
    end; cbn [fps deceleration set_scene set_current_speed]; try assumption.
    cbn [fps target_speed deceleration rotation_direction current_speed
         set_scene set_current_speed] in *.
    exists v'. split; [exact Hrun|].
    repeat (split; [assumption|]).
    destruct (Rle_dec (target_speed v) (current_speed v)) as [Hab | Hbe].
    + destruct (decelerate_bounds (1 / fps v) v Hdt Hab) as [Hlo Hhi].
      specialize (Hhi (or_introl Hd)).
      split; [lra|]. split; [intros _; apply Hge; exact Hlo|].
      intros Hc. assert (Hsame : decelerate (1 / fps v) v = current_speed v).
      { unfold decelerate.
        destruct (Rgt_dec (current_speed v) (target_speed v)); [lra | reflexivity]. }
      rewrite Hsame in *. apply Heq. exact Hc.
    + assert (Hsame : decelerate (1 / fps v) v = current_speed v).
      { unfold decelerate.
        destruct (Rgt_dec (current_speed v) (target_speed v)); [lra | reflexivity]. }
      rewrite Hsame in *.
      split; [exact Hle|]. split; [intros; lra | exact Heq].
Qed.

(** Towards any target and at any rate that is not negative, every tick
    with [fps >= 1] succeeds and never raises the speed; a speed that starts
    at or above the target stays at or above it, and one that starts at or
    below the target is never changed. *)
Theorem ticks_never_cross_target (v : HoloViewer) (n : nat)
    (Hfps : 1 <= fps v) (Hrate : 0 <= deceleration v) :
  exists v1 v2,
    ticks n v = Some v1 /\
    _auto_rotate v1 = Some v2 /\
    current_speed v2 <= current_speed v1 <= current_speed v /\
    (target_speed v <= current_speed v -> target_speed v <= current_speed v2) /\
    (current_speed v <= target_speed v -> current_speed v2 = current_speed v).
Proof.
  destruct (ticks_decay (S n) v Hfps Hrate)
    as (v2 & Hrun2 & _ & _ & _ & _ & Hle2 & Hge2 & Heq2).
  destruct (ticks_decay n v Hfps Hrate)
    as (v1 & Hrun1 & Hf1 & Ht1 & Hd1 & _ & Hle1 & Hge1 & Heq1).
  assert (Hstep : _auto_rotate v1 = Some v2).
  { replace (S n) with (n + 1)%nat in Hrun2 by lia.
    rewrite (ticks_add n 1 v v1 Hrun1) in Hrun2.
    cbn [ticks] in Hrun2.
    destruct (_auto_rotate v1) as [w|]; [exact Hrun2 | discriminate]. }
  exists v1, v2. split; [exact Hrun1|]. split; [exact Hstep|].
  destruct (ticks_decay 1 v1) as (w & Hw & _ & _ & _ & _ & Hle & _); [lra | lra |].
  cbn [ticks] in Hw. rewrite Hstep in Hw. injection Hw as <-.
  repeat split; assumption.
Qed.

Lemma ticks_never_cross_target_witness :
  1 <= fps (scenario_viewer 1 (125 / 1000) (125 / 10000)) /\
  0 <= deceleration (scenario_viewer 1 (125 / 1000) (125 / 10000)) /\
  exists v1 v2,
    ticks 5 (scenario_viewer 1 (125 / 1000) (125 / 10000)) = Some v1 /\
    _auto_rotate v1 = Some v2 /\
    125 / 1000 <= current_speed v2 <= current_speed v1.
Proof.
  assert (Hf : 1 <= fps (scenario_viewer 1 (125 / 1000) (125 / 10000)))
    by (simpl; lra).
  assert (Hd : 0 <= deceleration (scenario_viewer 1 (125 / 1000) (125 / 10000)))
    by (simpl; lra).
  split; [exact Hf|]. split; [exact Hd|].
  destruct (ticks_never_cross_target _ 5%nat Hf Hd)
    as (v1 & v2 & Hrun & Hstep & [Hle _] & Hge & _).
  exists v1, v2. split; [exact Hrun|]. split; [exact Hstep|].
  split; [apply Hge; simpl; lra | exact Hle].
Defined.

(** *** Reaching the target *)

(** The linear regime reaches the target within [k] ticks when the excess is
    at most [k] steps of [deceleration * dt]. *)
Lemma linear_phase (k : nat) :
  forall v : HoloViewer,
    1 <= fps v -> 0 < deceleration v ->
    0 <= current_speed v - target_speed v ->
    current_speed v - target_speed v <= INR k * (deceleration v * (1 / fps v)) ->
    current_speed v - target_speed v <= Rmax (target_speed v) (deceleration v) ->
    exists n v',
      ticks n v = Some v' /\ current_speed v' = target_speed v.
Proof.
  induction k as [|k IH]; intros v Hf Hd He0 Hek HeM.
  - exists 0%nat, v. split; [reflexivity|]. simpl in Hek. lra.
  - destruct (Rle_dec (current_speed v) (target_speed v)) as [Hat | Hab].
    + exists 0%nat, v. split; [reflexivity | lra].
    + pose proof (delta_time_range _ Hf) as Hdt.
      assert (Hc : decelerate (1 / fps v) v
                   = Rmax (current_speed v - deceleration v * (1 / fps v))
                          (target_speed v)).
      { unfold decelerate.
        destruct (Rgt_dec (current_speed v) (target_speed v)); [|lra].
        destruct (Rgt_dec (current_speed v - target_speed v)
                          (Rmax (target_speed v) (deceleration v)));
          [lra | reflexivity]. }
      rewrite S_INR in Hek.
      assert (Hstep : 0 < deceleration v * (1 / fps v)) by nra.
      match type of Hc with _ = ?c =>
        assert (Hlo : target_speed v <= c) by apply Rmax_r;
        assert (Hhi : c <= INR k * (deceleration v * (1 / fps v))
                           + target_speed v)
          by (apply Rmax_lub; [lra | pose proof (pos_INR k); nra]);
        assert (Hdown : c <= current_speed v) by (apply Rmax_lub; lra)
      end.
      rewrite <- Hc in Hlo, Hhi, Hdown.
      match goal with |- exists n v', ticks n v = _ /\ _ =>
        pose proof (ticks_S) as HS end.
      destruct (IH (set_scene
                      (apply_transform
                         (rotation_matrix
                            (IZR (rotation_direction v)
                             * decelerate (1 / fps v) v * 2 * PI * (1 / fps v))
                            (0, 1, 0))
                         (scene v))
                      (set_current_speed (decelerate (1 / fps v) v) v)))
        as (n & v' & Hrun & Hend);
        cbn [fps deceleration current_speed target_speed set_scene set_current_speed];
        try lra.
      exists (S n), v'. rewrite HS by lra. split; assumption.
Qed.

(** The exponential regime brings the excess down to the bound of the
    linear regime within [k] ticks when [k] factors [1 - dt] suffice. *)
Lemma exponential_phase (k : nat) :
  forall v : HoloViewer,
    1 <= fps v -> 0 < deceleration v ->
    0 <= current_speed v - target_speed v ->
    (current_speed v - target_speed v) * (1 - 1 / fps v) ^ k
      <= Rmax (target_speed v) (deceleration v) ->
    exists n v',
      ticks n v = Some v' /\
      fps v' = fps v /\
      target_speed v' = target_speed v /\
      deceleration v' = deceleration v /\
      0 <= current_speed v' - target_speed v'
        <= Rmax (target_speed v) (deceleration v).
Proof.
  induction k as [|k IH]; intros v Hf Hd He0 Hek.
  - exists 0%nat, v. simpl in Hek. repeat split; lra.
  - destruct (Rle_dec (current_speed v - target_speed v)
                      (Rmax (target_speed v) (deceleration v))) as [Hin | Hout].
    + exists 0%nat, v. repeat split; lra.
    + pose proof (delta_time_range _ Hf) as Hdt.
      assert (HM : 0 < Rmax (target_speed v) (deceleration v)).
      { eapply Rlt_le_trans; [exact Hd | apply Rmax_r]. }
      assert (Hc : decelerate (1 / fps v) v
                   = current_speed v * (1 - 1 / fps v)
                     + target_speed v * (1 / fps v)).
      { unfold decelerate.
        destruct (Rgt_dec (current_speed v) (target_speed v)); [|lra].
        destruct (Rgt_dec (current_speed v - target_speed v)
                          (Rmax (target_speed v) (deceleration v)));
          [reflexivity | lra]. }
      assert (He1 : decelerate (1 / fps v) v - target_speed v
                    = (current_speed v - target_speed v) * (1 - 1 / fps v))
        by (rewrite Hc; ring).
      destruct (IH (set_scene
                      (apply_transform
                         (rotation_matrix
                            (IZR (rotation_direction v)
                             * decelerate (1 / fps v) v * 2 * PI * (1 / fps v))
                            (0, 1, 0))
                         (scene v))
                      (set_current_speed (decelerate (1 / fps v) v) v)))
        as (n & v' & Hrun & Hf' & Ht' & Hd' & Hb');
        cbn [fps deceleration current_speed target_speed set_scene set_current_speed];
        try lra.
      * rewrite He1. nra.
      * rewrite He1. simpl in Hek.
        replace ((current_speed v - target_speed v) * (1 - 1 / fps v)
                 * (1 - 1 / fps v) ^ k)
          with ((current_speed v - target_speed v)
                * ((1 - 1 / fps v) * (1 - 1 / fps v) ^ k)) by ring.
        exact Hek.
      * cbn [fps deceleration current_speed target_speed set_scene
             set_current_speed] in *.
        exists (S n), v'. rewrite ticks_S by lra.
        repeat split; assumption || lra.
Qed.

(** Some power of [1 - dt] brings any excess under any positive bound. *)
Lemma geometric_decay (e q bound : R) :
  0 <= e -> 0 <= q < 1 -> 0 < bound -> exists k : nat, e * q ^ k <= bound.
Proof.
  intros He Hq Hb.
  destruct (Rle_dec e bound) as [Hin | Hout].
  - exists 0%nat. simpl. lra.
  - assert (Hpos : 0 < e) by lra.
    assert (Habs : Rabs q < 1) by (rewrite Rabs_right; lra).
    destruct (pow_lt_1_zero q Habs (bound / e)) as [N HN].
    { apply Rdiv_lt_0_compat; assumption. }
    exists N. specialize (HN N (Nat.le_refl N)).
    rewrite Rabs_right in HN by (apply Rle_ge, pow_le; lra).
    apply (Rmult_lt_compat_l e) in HN; [|exact Hpos].
    replace (e * (bound / e)) with bound in HN by (field; lra).
    lra.
Qed.

(** From a speed at or above the target, with [fps >= 1] and a positive
    rate, the ticks bring the speed to the target itself after finitely
    many steps, and from then on it stays there for good. *)
Theorem ticks_reach_target (v : HoloViewer)
    (Hfps : 1 <= fps v) (Hrate : 0 < deceleration v)
    (Habove : target_speed v <= current_speed v) :
  exists n : nat,
    forall m : nat, (n <= m)%nat ->
      exists v', ticks m v = Some v' /\ current_speed v' = target_speed v.
Proof.
  pose proof (delta_time_range _ Hfps) as Hdt.
  assert (HM : 0 < Rmax (target_speed v) (deceleration v)).
  { eapply Rlt_le_trans; [exact Hrate | apply Rmax_r]. }
  destruct (geometric_decay (current_speed v - target_speed v)
              (1 - 1 / fps v) _ ltac:(lra) ltac:(lra) HM) as [k Hk].
  destruct (exponential_phase k v Hfps (Rlt_gt _ _ Hrate) ltac:(lra) Hk)
    as (n1 & v1 & Hrun1 & Hf1 & Ht1 & Hd1 & Hb1).
  assert (Hstep : 0 < deceleration v1 * (1 / fps v1)).
  { rewrite Hd1, Hf1. nra. }
  destruct (INR_unbounded ((current_speed v1 - target_speed v1)
                           / (deceleration v1 * (1 / fps v1)))) as [k2 Hk2].
  assert (Hk2' : current_speed v1 - target_speed v1
                 <= INR k2 * (deceleration v1 * (1 / fps v1))).
  { apply Rgt_lt in Hk2.
    apply (Rmult_lt_compat_r _ _ _ Hstep) in Hk2.
    unfold Rdiv in Hk2. rewrite Rmult_assoc, Rinv_l in Hk2 by lra. lra. }
  destruct (linear_phase k2 v1) as (n2 & v2 & Hrun2 & Hend2);
    try rewrite Ht1; try rewrite Hd1; try rewrite Hf1; try lra.
  { rewrite <- Hd1, <- Hf1, <- Ht1. exact Hk2'. }
  exists (n1 + n2)%nat. intros m Hm.
  assert (Hrun12 : ticks (n1 + n2) v = Some v2)
    by (rewrite (ticks_add n1 n2 v v1 Hrun1); exact Hrun2).
  destruct (ticks_decay n2 v1) as (w2 & Hw2 & Hf2 & Ht2 & Hd2 & _);
    [lra | lra |].
  rewrite Hrun2 in Hw2. injection Hw2 as <-.
  destruct (ticks_decay (m - (n1 + n2)) v2)
    as (v3 & Hrun3 & _ & Ht3 & _ & _ & _ & _ & Hkeep); [lra | lra |].
  exists v3. split.
  - replace m with ((n1 + n2) + (m - (n1 + n2)))%nat by lia.
    rewrite (ticks_add _ _ v v2 Hrun12). exact Hrun3.
  - rewrite Hkeep by lra. rewrite Hend2. exact Ht1.
Qed.

Lemma ticks_reach_target_witness :
  1 <= fps (scenario_viewer 1 (125 / 1000) (125 / 10000)) /\
  0 < deceleration (scenario_viewer 1 (125 / 1000) (125 / 10000)) /\
  exists n : nat,
    forall m : nat, (n <= m)%nat ->
      exists v', ticks m (scenario_viewer 1 (125 / 1000) (125 / 10000)) = Some v' /\
                 current_speed v' = 125 / 1000.
Proof.
  assert (Hf : 1 <= fps (scenario_viewer 1 (125 / 1000) (125 / 10000)))
    by (simpl; lra).
  assert (Hd : 0 < deceleration (scenario_viewer 1 (125 / 1000) (125 / 10000)))
    by (simpl; lra).
  assert (Ha : target_speed (scenario_viewer 1 (125 / 1000) (125 / 10000))
               <= current_speed (scenario_viewer 1 (125 / 1000) (125 / 10000)))
    by (simpl; lra).
  split; [exact Hf|]. split; [exact Hd|].
  exact (ticks_reach_target _ Hf Hd Ha).
Defined.

End Inertia.


(* ================================================================= *)
(** ** Edge cases of the tick, and what the calls keep *)

Section Calls.

Import Np View3D SHolo.
Local Open Scope R_scope.

(** With fewer than one frame per second the step exceeds one, and a tick
    in the exponential regime throws the speed below the target; with a
    target of zero, as after [stop_rotation], below zero.  At exactly one
    frame per second it lands on the target. *)
Theorem slow_clock_overshoots (v : HoloViewer)
    (Hfps : 0 < fps v <= 1)
    (Hfar : current_speed v - target_speed v
            > Rmax (target_speed v) (deceleration v))
    (Habove : current_speed v > target_speed v) :
  exists v',
    _auto_rotate v = Some v' /\
    current_speed v' - target_speed v
      = (current_speed v - target_speed v) * (1 - 1 / fps v) /\
    (fps v < 1 -> current_speed v' < target_speed v) /\
    (fps v = 1 -> current_speed v' = target_speed v).
Proof.
  destruct Hfps as [Hpos Hle].
  eexists. split; [apply auto_rotate_some; lra|].
  cbn [current_speed set_scene set_current_speed].
  assert (Hc : decelerate (1 / fps v) v
               = current_speed v * (1 - 1 / fps v) + target_speed v * (1 / fps v)).
  { unfold decelerate.
    destruct (Rgt_dec (current_speed v) (target_speed v)); [|contradiction].
    destruct (Rgt_dec (current_speed v - target_speed v)
                      (Rmax (target_speed v) (deceleration v)));
      [reflexivity | contradiction]. }
  rewrite Hc. split; [ring|]. split.
  - intros Hlt.
    assert (Hdt : 1 < 1 / fps v).
    { apply (Rmult_lt_reg_r (fps v)); [exact Hpos|].
      unfold Rdiv. rewrite Rmult_assoc, Rinv_l by lra. lra. }
    nra.
  - intros ->. lra.
Qed.

Lemma slow_clock_overshoots_witness :
  exists v',
    _auto_rotate (stop_rotation (init [] (1 / 2) 1 (125 / 1000))) = Some v' /\
    current_speed v' < 0.
Proof.
  assert (Hf : 0 < fps (stop_rotation (init [] (1 / 2) 1 (125 / 1000))) <= 1)
    by (simpl; lra).
  assert (Hfar : current_speed (stop_rotation (init [] (1 / 2) 1 (125 / 1000)))
                 - target_speed (stop_rotation (init [] (1 / 2) 1 (125 / 1000)))
                 > Rmax (target_speed (stop_rotation (init [] (1 / 2) 1 (125 / 1000))))
                        (deceleration (stop_rotation (init [] (1 / 2) 1 (125 / 1000)))))
    by (simpl; apply Rmax_case; lra).
  assert (Hab : current_speed (stop_rotation (init [] (1 / 2) 1 (125 / 1000)))
                > target_speed (stop_rotation (init [] (1 / 2) 1 (125 / 1000))))
    by (simpl; lra).
  destruct (slow_clock_overshoots _ Hf Hfar Hab) as (v' & Hrun & _ & Hlt & _).
  exists v'. split; [exact Hrun|].
  apply Hlt. simpl. lra.
Defined.

(** Ticks raise exactly when the frame rate is zero, and then at the first
    tick: no tick changes the frame rate. *)
Theorem ticks_raise_iff_fps_zero (v : HoloViewer) (n : nat) :
  (ticks (S n) v = None <-> fps v = 0) /\
  (fps v <> 0 -> exists v', ticks n v = Some v' /\ fps v' = fps v).
Proof.
  assert (Hok : forall k w, fps w <> 0 ->
                            exists w', ticks k w = Some w' /\ fps w' = fps w).
  { induction k as [|k IH]; intros w Hw.
    - exists w. split; reflexivity.
    - rewrite ticks_S by exact Hw.
      match goal with |- context [ticks k ?w1] =>
        destruct (IH w1) as (w' & Hrun & Hf) end; [exact Hw|].
      exists w'. split; [exact Hrun | exact Hf]. }
  split; [|apply Hok].
  split.
  - intros Hnone. destruct (Req_dec_T (fps v) 0) as [E | N]; [exact E|].
    destruct (Hok (S n) v N) as (w & Hw & _). congruence.
  - intros E. cbn [ticks]. rewrite auto_rotate_none by exact E. reflexivity.
Qed.

(** A swipe adds a fifth of its magnitude to the signed speed.  So two
    swipes have the same effect on the signed speed in either order, and a
    swipe followed by the opposite swipe restores it. *)
Theorem swipe_adds_signed_speed (v : HoloViewer) (a b : R) :
  signed_speed (swipe a v) = a / 5 + signed_speed v /\
  signed_speed (swipe b (swipe a v)) = (a + b) / 5 + signed_speed v /\
  signed_speed (swipe b (swipe a v)) = signed_speed (swipe a (swipe b v)) /\
  signed_speed (swipe (- a) (swipe a v)) = signed_speed v.
Proof.
  assert (H : forall m w, signed_speed (swipe m w) = m / 5 + signed_speed w).
  { intros m w. unfold signed_speed, swipe.
    cbn [current_speed rotation_direction].
    destruct (Rge_dec (m / 5 + current_speed w * IZR (rotation_direction w)) 0);
      simpl; lra. }
  repeat split.
  - apply H.
  - rewrite !H. lra.
  - rewrite !H. lra.
  - rewrite !H. lra.
Qed.

Lemma init_motion_ok (sc : Scene) (f speed base : R) :
  1 <= f -> 0 <= speed -> 0 <= base -> motion_ok (init sc f speed base).
Proof.
  intros Hf Hs Hb. unfold motion_ok, init. cbn.
  repeat split; try lra. left. reflexivity.
Qed.

Lemma call_keeps_motion_ok (c : Call) (v : HoloViewer) :
  motion_ok v -> exists v', call c v = Some v' /\ motion_ok v'.
Proof.
  intros (Hf & Hc & Ht & Hd & Hbs & Hbd & Hsd & Hr).
  destruct c as [| m | | a d]; cbn [call].
  - eexists. split; [apply auto_rotate_some; lra|].
    unfold motion_ok.
    cbn [fps current_speed target_speed deceleration base_speed
         base_deceleration stop_deceleration rotation_direction
         set_scene set_current_speed].
    repeat split; try assumption.
    destruct (Rle_dec (target_speed v) (current_speed v)) as [Hab | Hbe].
    + destruct (decelerate_bounds (1 / fps v) v (delta_time_range _ Hf) Hab)
        as [Hlo _]. lra.
    + unfold decelerate.
      destruct (Rgt_dec (current_speed v) (target_speed v)); [lra | exact Hc].
  - eexists. split; [reflexivity|].
    unfold motion_ok, swipe.
    cbn [fps current_speed target_speed deceleration base_speed
         base_deceleration stop_deceleration rotation_direction].
    repeat split; try assumption.
    + destruct (Rge_dec (m / 5 + current_speed v * IZR (rotation_direction v)) 0);
        simpl; lra.
    + destruct (Rge_dec (m / 5 + current_speed v * IZR (rotation_direction v)) 0);
        [left | right]; reflexivity.
  - eexists. split; [reflexivity|].
    unfold motion_ok, stop_rotation. cbn. repeat split; try assumption. lra.
  - eexists. split; [reflexivity|].
    unfold motion_ok, set_camera_angle. cbn. repeat split; assumption.
Qed.

(** Ticks, swipes, stops and camera poses, in any order and number, never
    raise on a viewer in a proper state and leave it in one: the frame rate
    stays at least one, speed, target and rate stay not negative, and the
    direction stays +1 or -1.  A viewer built by [__init__] with
    [fps >= 1] and a speed and base speed that are not negative starts in
    such a state. *)
Theorem calls_keep_motion_ok (cs : list Call) (v : HoloViewer)
    (Hok : motion_ok v) :
  exists v', calls cs v = Some v' /\ motion_ok v'.
Proof.
  revert v Hok. induction cs as [|c rest IH]; intros v Hok.
  - exists v. split; [reflexivity | exact Hok].
  - cbn [calls].
    destruct (call_keeps_motion_ok c v Hok) as (v1 & Hc & Hok1).
    rewrite Hc. apply IH. exact Hok1.
Qed.

Lemma calls_keep_motion_ok_witness :
  motion_ok (init_default []) /\
  exists v',
    calls [call_swipe (-3); call_auto_motor; call_set_camera_angle 1 (0, 0, 0);
           call_stop_rotation; call_auto_motor]
          (init_default []) = Some v' /\
    0 <= current_speed v'.
Proof.
  assert (H : motion_ok (init_default []))
    by (apply init_motion_ok; lra).
  split; [exact H|].
  destruct (calls_keep_motion_ok
              [call_swipe (-3); call_auto_motor;
               call_set_camera_angle 1 (0, 0, 0);
               call_stop_rotation; call_auto_motor]
              (init_default []) H) as (v' & Hrun & Hok).
  exists v'. split; [exact Hrun | exact (proj1 (proj2 Hok))].
Defined.

End Calls.

(* ================================================================= *)
(** ** Composition of the recorded rotations *)

Section Composition.

Import Np View3D SHolo.
Local Open Scope R_scope.

Ltac tuple_eq :=
  repeat match goal with
         | |- (_, _) = (_, _) => apply f_equal2
         end.

Lemma mmul_identity_r (m : mat3) : mmul m identity = m.
Proof.
  destruct m as [[[[a b] c] [[d e] f]] [[g h] i]].
  cbv beta iota zeta delta [mmul identity col0 col1 col2 dot].
  tuple_eq; ring.
Qed.

Lemma rotation_about_zero (u : vec3) : rotation_about 0 u = identity.
Proof.
  destruct u as [[u0 u1] u2]. unfold rotation_about, identity.
  rewrite sin_0, cos_0. tuple_eq; ring.
Qed.

(** Rotations about one unit vector add their angles. *)
Lemma rotation_about_add (a b : R) (u : vec3) :
  dot u u = 1 ->
  mmul (rotation_about a u) (rotation_about b u) = rotation_about (a + b) u.
Proof.
  intros Hu.
  pose proof (sin2_cos2 a) as Ha. pose proof (sin2_cos2 b) as Hb.
  unfold Rsqr in Ha, Hb.
  destruct u as [[u0 u1] u2]. unfold dot in Hu.
  unfold rotation_about. rewrite sin_plus, cos_plus.
  set (sa := sin a) in *. set (ca := cos a) in *.
  set (sb := sin b) in *. set (cb := cos b) in *.
  cbv beta iota zeta delta [mmul col0 col1 col2 dot].
  tuple_eq; nsatz.
Qed.

Lemma rotation_about_undo (angle : R) (u : vec3) :
  dot u u = 1 ->
  mmul (rotation_about (- angle) u) (rotation_about angle u) = identity.
Proof.
  intros Hu. rewrite rotation_about_add by exact Hu.
  replace (- angle + angle) with 0 by ring. apply rotation_about_zero.
Qed.

(** The rotation about the y axis, written out. *)
Lemma rotation_about_y (angle : R) :
  rotation_about angle (unit_vector (0, 1, 0)) =
    ((cos angle, 0, sin angle), (0, 1, 0), (- sin angle, 0, cos angle)).
Proof.
  unfold unit_vector, vdiv, dot.
  replace (0 * 0 + 1 * 1 + 0 * 0) with 1 by ring. rewrite sqrt_1.
  unfold rotation_about. tuple_eq; field.
Qed.

Lemma y_axis_nonzero : (0, 1, 0) <> (0, 0, 0).
Proof. intros E. injection E as E. lra. Qed.

Lemma last_cons {A : Type} (p d : A) (l : list A) : last (p :: l) d = last l p.
Proof.
  revert p d. induction l as [|q l IH]; intros p d; [reflexivity|].
  change (last (p :: q :: l) d) with (last (q :: l) d).
  rewrite !IH. reflexivity.
Qed.

(** One pose change on a scene that carries the stored pose on top of some
    base transform: the stored pose is taken off and the new one put on. *)
Lemma set_camera_angle_replaces (angle : R) (direction : vec3) (v : HoloViewer)
    (base : mat3) :
  scene_matrix (scene v)
    = Some (mmul (rotation_about (camera_current_angle v)
                    (unit_vector (camera_current_direction v))) base) ->
  camera_current_direction v <> (0, 0, 0) ->
  direction <> (0, 0, 0) ->
  scene_matrix (scene (set_camera_angle angle direction v))
    = Some (mmul (rotation_about angle (unit_vector direction)) base).
Proof.
  intros Hbase Hcur Hdir.
  unfold set_camera_angle. cbn [scene].
  rewrite !scene_matrix_app, Hbase, !matrix_of_nonzero by assumption.
  rewrite (mmul_assoc (rotation_about (- camera_current_angle v) _)).
  rewrite rotation_about_undo by (apply unit_vector_dot; exact Hcur).
  rewrite mmul_identity_l. reflexivity.
Qed.

(** However many camera poses are set one after the other, all with
    directions other than zero, the scene carries exactly one of them on
    top of its base transform: the last one, which is also the stored
    pose.  Earlier poses leave no trace. *)
Theorem camera_poses_leave_last_pose (poses : list (R * vec3))
    (v : HoloViewer) (base : mat3)
    (Hbase : scene_matrix (scene v)
             = Some (mmul (rotation_about (camera_current_angle v)
                             (unit_vector (camera_current_direction v))) base))
    (Hcur : camera_current_direction v <> (0, 0, 0))
    (Hdirs : Forall (fun p => snd p <> (0, 0, 0)) poses) :
  let v' := fold_left (fun w p => set_camera_angle (fst p) (snd p) w) poses v in
  scene_matrix (scene v')
    = Some (mmul (rotation_about (camera_current_angle v')
                    (unit_vector (camera_current_direction v'))) base) /\
  (camera_current_angle v', camera_current_direction v')
    = last poses (camera_current_angle v, camera_current_direction v).
Proof.
  revert v Hbase Hcur.
  induction Hdirs as [|[a d] rest Hd _ IH]; intros v Hbase Hcur.
  - split; [exact Hbase | reflexivity].
  - cbn [fold_left fst snd] in *.
    rewrite last_cons.
    apply IH.
    + apply set_camera_angle_replaces; assumption.
    + exact Hd.
Qed.

Lemma camera_poses_leave_last_pose_witness :
  scene_matrix
    (scene (fold_left (fun w p => set_camera_angle (fst p) (snd p) w)
              [(1, (1, 0, 0)); (2, (0, 0, 1)); (-1, (1, 1, 0))]
              (init_default [])))
  = Some (mmul (rotation_about (-1) (unit_vector (1, 1, 0))) identity).
Proof.
  assert (Hbase : scene_matrix (scene (init_default []))
                  = Some (mmul (rotation_about
                                  (camera_current_angle (init_default []))
                                  (unit_vector
                                     (camera_current_direction (init_default []))))
                               identity)).
  { cbn [init_default init camera_current_angle camera_current_direction scene].
    rewrite rotation_about_zero, mmul_identity_l. reflexivity. }
  assert (Hcur : camera_current_direction (init_default []) <> (0, 0, 0))
    by exact y_axis_nonzero.
  assert (Hdirs : Forall (fun p : R * vec3 => snd p <> (0, 0, 0))
                         [(1, (1, 0, 0)); (2, (0, 0, 1)); (-1, (1, 1, 0))]).
  { repeat constructor; cbn [snd]; intros E; injection E; intros; lra. }
  exact (proj1 (camera_poses_leave_last_pose _ _ _ Hbase Hcur Hdirs)).
Defined.

Lemma spin_angle_set_scene (n : nat) :
  forall (sc : Scene) (v : HoloViewer),
    spin_angle n (set_scene sc v) = spin_angle n v.
Proof.
  induction n as [|n IH]; intros sc v; [reflexivity|].
  cbn [spin_angle].
  change (decelerate (1 / fps (set_scene sc v)) (set_scene sc v))
    with (decelerate (1 / fps v) v).
  change (fps (set_scene sc v)) with (fps v).
  change (rotation_direction (set_scene sc v)) with (rotation_direction v).
  change (set_current_speed (decelerate (1 / fps v) v) (set_scene sc v))
    with (set_scene sc (set_current_speed (decelerate (1 / fps v) v) v)).
  rewrite IH. reflexivity.
Qed.

(** The ticks only ever turn the scene about the vertical axis: after [n]
    ticks the net transform is the one before, turned about y by the sum of
    the [n] rotation increments. *)
Theorem ticks_spin_about_y (n : nat) (v : HoloViewer) (m : mat3)
    (Hfps : fps v <> 0) (Hscene : scene_matrix (scene v) = Some m) :
  exists v',
    ticks n v = Some v' /\
    scene_matrix (scene v') =
      Some (mmul ((cos (spin_angle n v), 0, sin (spin_angle n v)),
                  (0, 1, 0),
                  (- sin (spin_angle n v), 0, cos (spin_angle n v))) m).
Proof.
  revert v m Hfps Hscene.
  induction n as [|n IH]; intros v m Hfps Hscene.
  - exists v. split; [reflexivity|].
    cbn [spin_angle]. rewrite <- rotation_about_y, rotation_about_zero.
    rewrite mmul_identity_l. exact Hscene.
  - rewrite ticks_S by exact Hfps.
    set (c := decelerate (1 / fps v) v).
    set (theta := IZR (rotation_direction v) * c * 2 * PI * (1 / fps v)).
    destruct (IH (set_scene (apply_transform (rotation_matrix theta (0, 1, 0))
                               (scene v))
                            (set_current_speed c v))
                 (mmul (rotation_about theta (unit_vector (0, 1, 0))) m))
      as (v' & Hrun & Hm).
    + exact Hfps.
    + cbn [scene set_scene].
      rewrite scene_matrix_app, Hscene, matrix_of_nonzero by exact y_axis_nonzero.
      reflexivity.
    + exists v'. split; [exact Hrun|].
      rewrite Hm, spin_angle_set_scene.
      cbn [spin_angle]. fold c. fold theta.
      rewrite <- !rotation_about_y.
      rewrite mmul_assoc, rotation_about_add
        by (apply unit_vector_dot; exact y_axis_nonzero).
      rewrite (Rplus_comm theta). reflexivity.
Qed.

Lemma ticks_spin_about_y_witness :
  exists v',
    ticks 3 (swipe 2 (init_default [])) = Some v' /\
    scene_matrix (scene v') =
      Some (mmul ((cos (spin_angle 3 (swipe 2 (init_default []))), 0,
                   sin (spin_angle 3 (swipe 2 (init_default [])))),
                  (0, 1, 0),
                  (- sin (spin_angle 3 (swipe 2 (init_default []))), 0,
                   cos (spin_angle 3 (swipe 2 (init_default []))))) identity).
Proof.
  assert (Hf : fps (swipe 2 (init_default [])) <> 0) by (simpl; lra).
  exact (ticks_spin_about_y 3 (swipe 2 (init_default [])) identity Hf eq_refl).
Defined.

End Composition.


(* ================================================================= *)
(** ** More on the gaze mapper *)

Section GazeGeometry.

Import Np Eyes.
Local Open Scope R_scope.

Lemma atan_zero_iff (z : R) : atan z = 0 <-> z = 0.
Proof.
  split.
  - intros H. destruct (Rtotal_order z 0) as [Hlt | [Heq | Hgt]]; [|exact Heq|].
    + pose proof (atan_increasing _ _ Hlt) as Hi. rewrite atan_0 in Hi. lra.
    + pose proof (atan_increasing _ _ Hgt) as Hi. rewrite atan_0 in Hi. lra.
  - intros ->. apply atan_0.
Qed.

Lemma atan_square_bound (z : R) : atan z * atan z < PI * PI / 4.
Proof.
  destruct (atan_bound z) as [Hlo Hhi]. pose proof PI_RGT_0 as Hpi. nra.
Qed.

(** Pitch and yaw of a gaze point, as [compute_gaze_rotation] forms them. *)
Lemma compute_gaze_rotation_eq (screen_x screen_y : Z) (distance_cm : R) :
  0 < distance_cm ->
  let yaw := atan ((IZR screen_x - 960) / 1920 * 52 / (200 + distance_cm)) in
  let pitch := atan ((IZR screen_y - 540) / 1080 * (295 / 10)
                     / (200 + distance_cm)) in
  compute_gaze_rotation screen_x screen_y distance_cm =
    (- sqrt (yaw ^ 2 + pitch ^ 2),
     if Rlt_dec 0 (norm (pitch, yaw, 0))
     then vdiv (pitch, yaw, 0) (norm (pitch, yaw, 0))
     else (pitch, yaw, 0)).
Proof.
  intros Hd yaw pitch. unfold compute_gaze_rotation.
  cbn [fst snd SCREEN_RESOLUTION].
  unfold SCENE_SCREEN_DISTANCE_CM, SCREEN_WIDTH_CM, SCREEN_HEIGHT_CM.
  rewrite !arctan2_pos by lra.
  replace (1920 / 2) with 960 by lra.
  replace (1080 / 2) with 540 by lra.
  reflexivity.
Qed.

(** The returned direction is the zero vector exactly when the gaze point
    is the centre of the screen, pixel (960, 540); there the angle is zero,
    everywhere else it is negative; and it always stays above [- PI]. *)
Theorem gaze_zero_only_at_centre (screen_x screen_y : Z) (distance_cm : R)
    (Hdist : 0 < distance_cm) :
  let angle := fst (compute_gaze_rotation screen_x screen_y distance_cm) in
  let direction := snd (compute_gaze_rotation screen_x screen_y distance_cm) in
  (direction = (0, 0, 0) <-> screen_x = 960%Z /\ screen_y = 540%Z) /\
  (angle = 0 <-> screen_x = 960%Z /\ screen_y = 540%Z) /\
  - PI < angle <= 0.
Proof.
  intros angle direction. subst angle direction.
  rewrite (compute_gaze_rotation_eq _ _ _ Hdist). cbn [fst snd].
  set (yaw := atan ((IZR screen_x - 960) / 1920 * 52 / (200 + distance_cm))).
  set (pitch := atan ((IZR screen_y - 540) / 1080 * (295 / 10)
                      / (200 + distance_cm))).
  assert (Hpos : 0 < 200 + distance_cm) by lra.
  assert (Hyaw : yaw = 0 <-> screen_x = 960%Z).
  { unfold yaw. rewrite atan_zero_iff. split.
    - intros H. apply eq_IZR.
      apply (Rmult_eq_compat_r (200 + distance_cm)) in H.
      unfold Rdiv in H. rewrite Rmult_assoc, Rinv_l in H by lra. lra.
    - intros ->. unfold Rdiv. ring. }
  assert (Hpitch : pitch = 0 <-> screen_y = 540%Z).
  { unfold pitch. rewrite atan_zero_iff. split.
    - intros H. apply eq_IZR.
      apply (Rmult_eq_compat_r (200 + distance_cm)) in H.
      unfold Rdiv in H. rewrite Rmult_assoc, Rinv_l in H by lra. lra.
    - intros ->. unfold Rdiv. ring. }
  assert (Hvec : (pitch, yaw, 0) = (0, 0, 0) <-> pitch = 0 /\ yaw = 0).
  { split; [intros E; injection E; auto | intros [-> ->]; reflexivity]. }
  destruct (normalised_direction pitch yaw) as [Hnz Hz].
  cbv zeta in Hnz, Hz.
  split; [|split].
  - split.
    + intros Hzero.
      destruct (Req_dec_T pitch 0) as [Hp | Hp];
        [destruct (Req_dec_T yaw 0) as [Hy | Hy]|].
      * tauto.
      * exfalso. destruct Hnz as [_ Hone]; [rewrite Hvec; tauto|].
        rewrite Hzero, norm_zero_vector in Hone. lra.
      * exfalso. destruct Hnz as [_ Hone]; [rewrite Hvec; tauto|].
        rewrite Hzero, norm_zero_vector in Hone. lra.
    + intros [Hx Hy]. apply Hz. apply Hvec. tauto.
  - split.
    + intros Hang.
      assert (Hs : sqrt (yaw ^ 2 + pitch ^ 2) = 0) by lra.
      apply sqrt_eq_0 in Hs; [|nra].
      assert (yaw = 0) by nra. assert (pitch = 0) by nra. tauto.
    + intros [Hx Hy]. apply Hyaw in Hx. apply Hpitch in Hy.
      rewrite Hx, Hy. replace (0 ^ 2 + 0 ^ 2) with 0 by ring.
      rewrite sqrt_0. ring.
  - pose proof (atan_square_bound
                  ((IZR screen_x - 960) / 1920 * 52 / (200 + distance_cm))) as By.
    pose proof (atan_square_bound
                  ((IZR screen_y - 540) / 1080 * (295 / 10)
                   / (200 + distance_cm))) as Bp.
    fold yaw in By. fold pitch in Bp.
    pose proof PI_RGT_0 as Hpi.
    pose proof (sqrt_pos (yaw ^ 2 + pitch ^ 2)) as Hs.
    split; [|lra].
    assert (Hlt : sqrt (yaw ^ 2 + pitch ^ 2) < sqrt (PI * PI)).
    { apply sqrt_lt_1; nra. }
    rewrite sqrt_square in Hlt by lra. lra.
Qed.

Lemma gaze_zero_only_at_centre_witness :
  0 < 60 /\
  snd (compute_gaze_rotation 961 540 60) <> (0, 0, 0) /\
  - PI < fst (compute_gaze_rotation 961 540 60) <= 0.
Proof.
  assert (H : 0 < 60) by lra.
  split; [exact H|].
  destruct (gaze_zero_only_at_centre 961 540 60 H) as (Hdir & _ & Hrange).
  split; [|exact Hrange].
  intros E. apply Hdir in E. destruct E as [E _]. discriminate.
Defined.

(** Mirroring the gaze point through the centre of the screen keeps the
    angle and reverses the direction. *)
Theorem gaze_mirror_symmetry (screen_x screen_y : Z) (distance_cm : R)
    (Hdist : 0 < distance_cm) :
  let '(angle, (d0, d1, d2)) :=
    compute_gaze_rotation screen_x screen_y distance_cm in
  compute_gaze_rotation (1920 - screen_x) (1080 - screen_y) distance_cm
    = (angle, (- d0, - d1, - d2)).
Proof.
  rewrite !(compute_gaze_rotation_eq _ _ _ Hdist).
  rewrite !minus_IZR.
  replace ((1920 - IZR screen_x - 960) / 1920 * 52 / (200 + distance_cm))
    with (- ((IZR screen_x - 960) / 1920 * 52 / (200 + distance_cm)))
    by (field; lra).
  replace ((1080 - IZR screen_y - 540) / 1080 * (295 / 10) / (200 + distance_cm))
    with (- ((IZR screen_y - 540) / 1080 * (295 / 10) / (200 + distance_cm)))
    by (field; lra).
  rewrite !atan_opp.
  set (yaw := atan ((IZR screen_x - 960) / 1920 * 52 / (200 + distance_cm))).
  set (pitch := atan ((IZR screen_y - 540) / 1080 * (295 / 10)
                      / (200 + distance_cm))).
  assert (Hn : norm (- pitch, - yaw, 0) = norm (pitch, yaw, 0)).
  { unfold norm, dot. f_equal. ring. }
  rewrite Hn.
  replace ((- yaw) ^ 2 + (- pitch) ^ 2) with (yaw ^ 2 + pitch ^ 2) by ring.
  destruct (Rlt_dec 0 (norm (pitch, yaw, 0))) as [Hpos | Hzero].
  - unfold vdiv. f_equal. repeat apply f_equal2; field; lra.
  - f_equal. repeat apply f_equal2; ring.
Qed.

Lemma gaze_mirror_symmetry_witness :
  0 < 60 /\
  fst (compute_gaze_rotation (1920 - 1200) (1080 - 300) 60)
    = fst (compute_gaze_rotation 1200 300 60).
Proof.
  assert (H : 0 < 60) by lra.
  split; [exact H|].
  pose proof (gaze_mirror_symmetry 1200 300 60 H) as Hm.
  destruct (compute_gaze_rotation 1200 300 60) as [angle [[d0 d1] d2]].
  rewrite Hm. reflexivity.
Defined.

End GazeGeometry.

(* ================================================================= *)
(** ** More on the eye tracker *)

Section GazePoint.

Import Np Eyes.
Local Open Scope R_scope.

(** [int] of a value between two integers lies between them. *)
Lemma int_between (lo hi : Z) (v : R) :
  (lo <= 0 <= hi)%Z -> IZR lo <= v <= IZR hi -> (lo <= int v <= hi)%Z.
Proof.
  intros [Hlo Hhi] [Hv1 Hv2].
  apply IZR_le in Hlo. apply IZR_le in Hhi.
  destruct (int_truncates v) as [Hnn Hneg].
  destruct (Rle_dec 0 v) as [Hp | Hn].
  - destruct (Hnn Hp) as [H1 H2].
    split; apply Z.lt_succ_r; apply lt_IZR; rewrite succ_IZR; lra.
  - destruct (Hneg ltac:(lra)) as [H1 H2].
    split; apply Z.lt_succ_r; apply lt_IZR; rewrite succ_IZR; lra.
Qed.

(** The mean of a list that is not empty lies between any bounds of its
    elements. *)
Lemma mean_between (lo hi : R) (l : list R) :
  l <> [] -> Forall (fun v => lo <= v <= hi) l -> lo <= mean l <= hi.
Proof.
  intros Hne Hall.
  assert (Hsum : INR (length l) * lo <= fold_right Rplus 0 l
                 <= INR (length l) * hi).
  { induction Hall as [|v l Hv _ IH].
    - simpl. lra.
    - cbn [fold_right length]. rewrite S_INR.
      destruct l as [|w l'].
      + simpl in *. lra.
      + specialize (IH ltac:(discriminate)). lra. }
  assert (Hlen : 0 < INR (length l)).
  { apply lt_0_INR. destruct l; [contradiction | simpl; lia]. }
  unfold mean. split.
  - apply (Rmult_le_reg_r (INR (length l))); [exact Hlen|].
    unfold Rdiv. rewrite Rmult_assoc, Rinv_l by lra. lra.
  - apply (Rmult_le_reg_r (INR (length l))); [exact Hlen|].
    unfold Rdiv. rewrite Rmult_assoc, Rinv_l by lra. lra.
Qed.

(** The gaze point as a function of the sums of the eye pixels: the
    relative coordinates that [track] forms and scales back cancel. *)
Lemma track_face_scaling (landmarks : FaceLandmarks) :
  fst (track_face landmarks) =
    (int (IZR (fst (fst (eye_pixels landmarks))
               + fst (snd (eye_pixels landmarks))) * (3 / 2)),
     int (IZR (snd (fst (eye_pixels landmarks))
               + snd (snd (eye_pixels landmarks))) * (9 / 8))).
Proof.
  unfold track_face.
  destruct (eye_pixels landmarks) as [[lx ly] [rx ry]].
  cbn [fst snd SCREEN_RESOLUTION]. unfold CAMERA_WIDTH, CAMERA_HEIGHT.
  f_equal; f_equal; field.
Qed.

(** When the eight eye landmarks lie in the unit square, the eye pixels lie
    in the camera frame, 0..640 by 0..480, and the gaze point on the
    screen, 0..1920 by 0..1080, both bounds included. *)
Theorem gaze_point_within_screen (landmarks : FaceLandmarks)
    (Hunit : forall i : nat,
        In i (left_eye_indices ++ right_eye_indices) ->
        0 <= x (landmarks i) <= 1 /\ 0 <= y (landmarks i) <= 1) :
  let '((left_x, left_y), (right_x, right_y)) := eye_pixels landmarks in
  let '(screen_x, screen_y, _) := track_face landmarks in
  (0 <= left_x <= 640 /\ 0 <= right_x <= 640)%Z /\
  (0 <= left_y <= 480 /\ 0 <= right_y <= 480)%Z /\
  (0 <= screen_x <= 1920)%Z /\
  (0 <= screen_y <= 1080)%Z.
Proof.
  pose proof (track_face_scaling landmarks) as Hq.
  assert (Hc : forall idx,
             incl idx (left_eye_indices ++ right_eye_indices) -> idx <> [] ->
             (0 <= int (fst (get_eye_center landmarks idx) * CAMERA_WIDTH) <= 640)%Z /\
             (0 <= int (snd (get_eye_center landmarks idx) * CAMERA_HEIGHT) <= 480)%Z).
  { intros idx Hincl Hne. unfold get_eye_center. cbn [fst snd].
    rewrite !map_map. cbn [fst snd].
    assert (Hx : 0 <= mean (map (fun i => x (landmarks i)) idx) <= 1).
    { apply mean_between; [destruct idx; [contradiction | discriminate]|].
      apply Forall_forall. intros v Hv. apply in_map_iff in Hv.
      destruct Hv as (i & <- & Hi). apply Hunit, Hincl, Hi. }
    assert (Hy : 0 <= mean (map (fun i => y (landmarks i)) idx) <= 1).
    { apply mean_between; [destruct idx; [contradiction | discriminate]|].
      apply Forall_forall. intros v Hv. apply in_map_iff in Hv.
      destruct Hv as (i & <- & Hi). apply Hunit, Hincl, Hi. }
    unfold CAMERA_WIDTH, CAMERA_HEIGHT.
    split; apply int_between; try lia; lra. }
  destruct (Hc left_eye_indices) as [Hlx Hly];
    [apply incl_appl, incl_refl | discriminate |].
  destruct (Hc right_eye_indices) as [Hrx Hry];
    [apply incl_appr, incl_refl | discriminate |].
  unfold eye_pixels in *.
  set (lx := int (fst (get_eye_center landmarks left_eye_indices) * CAMERA_WIDTH)) in *.
  set (ly := int (snd (get_eye_center landmarks left_eye_indices) * CAMERA_HEIGHT)) in *.
  set (rx := int (fst (get_eye_center landmarks right_eye_indices) * CAMERA_WIDTH)) in *.
  set (ry := int (snd (get_eye_center landmarks right_eye_indices) * CAMERA_HEIGHT)) in *.
  cbn [fst snd] in Hq.
  destruct (track_face landmarks) as [[sx sy] dist].
  cbn [fst] in Hq. apply pair_equal_spec in Hq. destruct Hq as [-> ->].
  clearbody lx ly rx ry.
  assert (Hsx : 0 <= IZR (lx + rx) <= 1280)
    by (split; apply IZR_le; lia).
  assert (Hsy : 0 <= IZR (ly + ry) <= 960)
    by (split; apply IZR_le; lia).
  split; [tauto|]. split; [tauto|].
  split; apply int_between; try lia; lra.
Qed.

Lemma gaze_point_within_screen_witness :
  (0 <= fst (fst (track_face collapsed_face)) <= 1920)%Z /\
  (0 <= snd (fst (track_face collapsed_face)) <= 1080)%Z.
Proof.
  assert (Hunit : forall i : nat,
             In i (left_eye_indices ++ right_eye_indices) ->
             0 <= x (collapsed_face i) <= 1 /\ 0 <= y (collapsed_face i) <= 1)
    by (intros i _; cbn; lra).
  pose proof (gaze_point_within_screen collapsed_face Hunit) as Hin.
  destruct (eye_pixels collapsed_face) as [[lx ly] [rx ry]].
  destruct (track_face collapsed_face) as [[sx sy] dist].
  cbn [fst snd]. tauto.
Defined.

End GazePoint.


(* ================================================================= *)
(** ** From the trackers to the viewer *)

Section Wiring.

Import Np Eyes View3D SHolo.
Local Open Scope R_scope.

(** The estimated distance is inversely proportional to the pixel distance
    of the eyes: the product of the two is the same constant for every
    positive pixel distance, so eyes further apart in the image mean a
    viewer closer to the screen. *)
Theorem estimate_distance_inverse (ipd1 ipd2 : R)
    (H1 : 0 < ipd1) (H12 : ipd1 < ipd2) :
  exists d1 d2 : R,
    estimate_distance ipd1 = finite d1 /\
    estimate_distance ipd2 = finite d2 /\
    0 < d2 < d1 /\
    d1 * ipd1 = IPD_REAL_CM * FOCAL_LENGTH_PX /\
    d2 * ipd2 = IPD_REAL_CM * FOCAL_LENGTH_PX.
Proof.
  pose proof FOCAL_LENGTH_PX_pos as Hk.
  unfold estimate_distance.
  destruct (Req_dec_T ipd1 0) as [E | _]; [lra|].
  destruct (Req_dec_T ipd2 0) as [E | _]; [lra|].
  eexists _, _. split; [reflexivity|]. split; [reflexivity|].
  set (k := IPD_REAL_CM * FOCAL_LENGTH_PX) in *.
  assert (Hi1 : 0 < / ipd1) by (apply Rinv_0_lt_compat; lra).
  assert (Hi2 : 0 < / ipd2) by (apply Rinv_0_lt_compat; lra).
  assert (Hinv : / ipd2 < / ipd1) by (apply Rinv_lt_contravar; nra).
  unfold Rdiv. repeat split.
  - nra.
  - apply Rmult_lt_compat_l; assumption.
  - rewrite Rmult_assoc, Rinv_l by lra. ring.
  - rewrite Rmult_assoc, Rinv_l by lra. ring.
Qed.

Lemma estimate_distance_inverse_witness :
  exists d1 d2 : R,
    estimate_distance 60 = finite d1 /\
    estimate_distance 120 = finite d2 /\
    0 < d2 < d1.
Proof.
  destruct (estimate_distance_inverse 60 120 ltac:(lra) ltac:(lra))
    as (d1 & d2 & E1 & E2 & Hlt & _).
  exists d1, d2. repeat split; try assumption; apply Hlt.
Defined.

(** Once the net transform of the scene is not finite, nothing recorded
    later makes it finite again. *)
Lemma scene_matrix_none_app (sc more : Scene) :
  scene_matrix sc = None -> scene_matrix (sc ++ more) = None.
Proof.
  intros H. unfold scene_matrix in *. rewrite fold_left_app, H.
  induction more as [|t more IH]; [reflexivity | exact IH].
Qed.

Lemma set_camera_angle_zero_none (angle : R) (v : HoloViewer) :
  scene_matrix (scene (set_camera_angle angle (0, 0, 0) v)) = None.
Proof.
  unfold set_camera_angle. cbn [scene].
  rewrite scene_matrix_app, matrix_of_zero.
  destruct (scene_matrix _); reflexivity.
Qed.

(** Every call on the viewer only adds to the record of the scene. *)
Lemma call_extends_scene (c : Call) (v v' : HoloViewer) :
  call c v = Some v' -> exists more, scene v' = scene v ++ more.
Proof.
  destruct c as [| m | | a d]; cbn [call].
  - unfold _auto_rotate. destruct (Req_dec_T (fps v) 0); [discriminate|].
    intros H. injection H as <-. eexists. reflexivity.
  - intros H. injection H as <-. exists []. rewrite app_nil_r. reflexivity.
  - intros H. injection H as <-. exists []. rewrite app_nil_r. reflexivity.
  - intros H. injection H as <-.
    unfold set_camera_angle, apply_transform. cbn [scene].
    rewrite <- app_assoc. eexists. reflexivity.
Qed.

Lemma calls_extend_scene (cs : list Call) :
  forall v v', calls cs v = Some v' -> exists more, scene v' = scene v ++ more.
Proof.
  induction cs as [|c rest IH]; intros v v' H.
  - injection H as <-. exists []. rewrite app_nil_r. reflexivity.
  - cbn [calls] in H. destruct (call c v) as [v1|] eqn:E; [|discriminate].
    destruct (call_extends_scene c v v1 E) as [m1 H1].
    destruct (IH v1 v' H) as [m2 H2].
    exists (m1 ++ m2). rewrite H2, H1, app_assoc. reflexivity.
Qed.

(** A gaze exactly at the centre of the screen, at any positive distance,
    and a gaze with an infinite distance make [update_eyes] set a pose
    about the zero vector.  The net transform of the scene is then not
    finite, and it stays so through every later tick, swipe, stop and
    camera pose. *)
Theorem degenerate_gaze_spoils_scene (screen_x screen_y : Z) (distance_cm : R)
    (v : HoloViewer) (Hdist : 0 < distance_cm) :
  scene_matrix (scene (update_eyes 960 540 (finite distance_cm) v)) = None /\
  scene_matrix (scene (update_eyes screen_x screen_y inf v)) = None /\
  (forall (cs : list Call) (v' : HoloViewer),
     calls cs (update_eyes 960 540 (finite distance_cm) v) = Some v' ->
     scene_matrix (scene v') = None) /\
  (forall (cs : list Call) (v' : HoloViewer),
     calls cs (update_eyes screen_x screen_y inf v) = Some v' ->
     scene_matrix (scene v') = None).
Proof.
  assert (H1 : scene_matrix (scene (update_eyes 960 540 (finite distance_cm) v))
               = None).
  { unfold update_eyes, gaze_rotation.
    rewrite (gaze_at_screen_centre distance_cm Hdist).
    apply set_camera_angle_zero_none. }
  assert (H2 : scene_matrix (scene (update_eyes screen_x screen_y inf v)) = None).
  { unfold update_eyes, gaze_rotation. apply set_camera_angle_zero_none. }
  split; [exact H1|]. split; [exact H2|].
  split; intros cs v' Hrun;
    destruct (calls_extend_scene cs _ _ Hrun) as [more ->];
    apply scene_matrix_none_app; assumption.
Qed.

Lemma degenerate_gaze_spoils_scene_witness :
  scene_matrix (scene (update_eyes 960 540 (finite 60) (init_default []))) = None.
Proof.
  exact (proj1 (degenerate_gaze_spoils_scene 0 0 60 (init_default [])
                  ltac:(lra))).
Defined.

Lemma update_eyes_extends_scene (screen_x screen_y : Z) (distance_cm : npfloat)
    (v : HoloViewer) :
  motion (update_eyes screen_x screen_y distance_cm v) = motion v /\
  exists more,
    scene (update_eyes screen_x screen_y distance_cm v) = scene v ++ more.
Proof.
  unfold update_eyes.
  destruct (gaze_rotation screen_x screen_y distance_cm) as [a d].
  split; [reflexivity|].
  unfold set_camera_angle, apply_transform. cbn [scene].
  rewrite <- app_assoc. eexists. reflexivity.
Qed.

Lemma deliver_keeps_scene (cb : Hands.Callback) (v : HoloViewer) :
  scene (deliver cb v) = scene v.
Proof. destruct cb; reflexivity. Qed.

(** The gaze part of [process]: the motion state is untouched, the scene
    record only grows. *)
Lemma gaze_fold_extends (gazes : list (Z * Z * npfloat)) :
  forall v : HoloViewer,
    let v' := fold_left (fun w '(screen_x, screen_y, distance_cm) =>
                           update_eyes screen_x screen_y distance_cm w)
                        gazes v in
    motion v' = motion v /\ exists more, scene v' = scene v ++ more.
Proof.
  induction gazes as [|[[sx sy] dist] rest IH]; intros v.
  - split; [reflexivity|]. exists []. cbn. rewrite app_nil_r. reflexivity.
  - cbn [fold_left].
    destruct (update_eyes_extends_scene sx sy dist v) as [Hm [m1 H1]].
    destruct (IH (update_eyes sx sy dist v)) as [Hm' [m2 H2]].
    cbv zeta in *. split; [congruence|].
    exists (m1 ++ m2). rewrite H2, H1, app_assoc. reflexivity.
Qed.

Lemma deliver_fold_keeps_scene (out : list Hands.Callback) :
  forall v, scene (fold_left (fun w cb => deliver cb w) out v) = scene v.
Proof.
  induction out as [|cb rest IH]; intros v; [reflexivity|].
  cbn [fold_left]. rewrite IH. apply deliver_keeps_scene.
Qed.

Lemma process_extends_scene (cfg : Hands.HandConfig) (c : Capture)
    (st : Hands.HandTracker * HoloViewer) :
  exists more, scene (snd (process cfg c st)) = scene (snd st) ++ more.
Proof.
  destruct st as [tracker v]. unfold process.
  destruct (Hands.track cfg (hands c) tracker) as [tracker1 out].
  cbn [snd]. rewrite deliver_fold_keeps_scene.
  apply gaze_fold_extends.
Qed.

Lemma run_extends_scene (cfg : Hands.HandConfig) (captures : list Capture) :
  forall st, exists more,
    scene (snd (run cfg captures st)) = scene (snd st) ++ more.
Proof.
  induction captures as [|c rest IH]; intros st.
  - exists []. cbn. rewrite app_nil_r. reflexivity.
  - unfold run in *. cbn [fold_left].
    destruct (process_extends_scene cfg c st) as [m1 H1].
    destruct (IH (process cfg c st)) as [m2 H2].
    exists (m1 ++ m2). rewrite H2, H1, app_assoc. reflexivity.
Qed.

(** One captured frame with a face whose two eye centres fall on the same
    pixel is enough to leave the net transform of the scene not finite for
    the rest of the run, whatever the other frames hold: the infinite
    distance reaches [update_eyes], which sets a pose about the zero
    vector. *)
Theorem coinciding_eyes_spoil_run (cfg : Hands.HandConfig)
    (before after : list Capture) (c : Capture) (face : FaceLandmarks)
    (st : Hands.HandTracker * HoloViewer)
    (Hface : In face (faces c))
    (Hsame : fst (eye_pixels face) = snd (eye_pixels face)) :
  scene_matrix (scene (snd (run cfg (before ++ c :: after) st))) = None.
Proof.
  unfold run. rewrite fold_left_app. cbn [fold_left].
  fold (run cfg before st).
  set (st1 := run cfg before st).
  fold (run cfg after (process cfg c st1)).
  destruct (run_extends_scene cfg after (process cfg c st1)) as [more ->].
  apply scene_matrix_none_app.
  destruct st1 as [tracker v]. unfold process.
  destruct (Hands.track cfg (hands c) tracker) as [tracker1 out].
  cbn [snd]. rewrite deliver_fold_keeps_scene.
  destruct (in_split _ _ Hface) as (pre & post & ->).
  unfold Eyes.track. rewrite map_app, fold_left_app. cbn [map fold_left].
  set (v1 := fold_left _ (map track_face pre) v).
  assert (Hinf : snd (track_face face) = inf).
  { rewrite track_face_distance.
    rewrite (proj2 (ipd_px_zero_iff _ _) Hsame).
    unfold estimate_distance.
    destruct (Req_dec_T 0 0) as [_ | N]; [reflexivity | contradiction]. }
  destruct (track_face face) as [[sx sy] dist]. cbn [snd] in Hinf. subst dist.
  destruct (gaze_fold_extends (map track_face post) (update_eyes sx sy inf v1))
    as [_ [more' Hmore]].
  cbv zeta in Hmore. rewrite Hmore.
  apply scene_matrix_none_app.
  unfold update_eyes, gaze_rotation. apply set_camera_angle_zero_none.
Qed.

Lemma coinciding_eyes_spoil_run_witness :
  scene_matrix
    (scene (snd (run Hands.config
                   [mkCapture [collapsed_face] (Hands.mkFrame 10 [])]
                   (Hands.init 9, init_default [])))) = None.
Proof.
  exact (coinciding_eyes_spoil_run Hands.config []
           [] (mkCapture [collapsed_face] (Hands.mkFrame 10 []))
           collapsed_face (Hands.init 9, init_default [])
           (or_introl eq_refl) collapsed_face_pixels).
Defined.

(** One captured frame changes the motion state by at most one gesture: the
    gaze never touches it, and the hand tracker hands over nothing, one
    swipe or one stop. *)
Theorem process_delivers_at_most_one (cfg : Hands.HandConfig) (c : Capture)
    (tracker : Hands.HandTracker) (v : HoloViewer)
    (Hcd : (0 <= Hands.GESTURE_COOLDOWN cfg)%Q) :
  let v' := snd (process cfg c (tracker, v)) in
  motion v' = motion v \/
  (exists magnitude : Q, motion v' = motion (swipe (Q2R magnitude) v)) \/
  motion v' = motion (stop_rotation v).
Proof.
  unfold process.
  pose proof (track_outcome cfg Hcd (hands c) tracker) as Ho.
  destruct (Hands.track cfg (hands c) tracker) as [tracker1 out].
  cbn [fst snd] in *.
  destruct (gaze_fold_extends (Eyes.track (faces c)) v) as [Hm _].
  cbv zeta in Hm.
  set (v1 := fold_left _ (Eyes.track (faces c)) v) in *.
  assert (Hfields : current_speed v1 = current_speed v /\
                    rotation_direction v1 = rotation_direction v).
  { unfold motion in Hm. injection Hm as H1 H2 H3 H4. split; assumption. }
  destruct Hfields as [Hcs Hrd].
  destruct Ho as [[-> _] | (cb & -> & _)]; cbn [fold_left].
  - left. exact Hm.
  - right. destruct cb as [magnitude|]; cbn [deliver].
    + left. exists magnitude. unfold motion, swipe.
      cbn [current_speed rotation_direction target_speed deceleration].
      unfold motion in Hm. injection Hm as H1 H2 H3 H4.
      rewrite Hcs, Hrd.
      assert (Hb : base_speed v1 = base_speed v /\
                   base_deceleration v1 = base_deceleration v).
      { unfold v1. clear.
        generalize (Eyes.track (faces c)). intros gazes. revert v.
        induction gazes as [|[[sx sy] dist] rest IH]; intros v;
          [split; reflexivity|].
        cbn [fold_left]. destruct (IH (update_eyes sx sy dist v)) as [E1 E2].
        rewrite E1, E2. unfold update_eyes.
        destruct (gaze_rotation sx sy dist). split; reflexivity. }
      destruct Hb as [-> ->]. reflexivity.
    + right. unfold motion, stop_rotation.
      cbn [current_speed rotation_direction target_speed deceleration].
      rewrite Hcs, Hrd.
      assert (Hb : stop_deceleration v1 = stop_deceleration v).
      { unfold v1. clear.
        generalize (Eyes.track (faces c)). intros gazes. revert v.
        induction gazes as [|[[sx sy] dist] rest IH]; intros v; [reflexivity|].
        cbn [fold_left]. rewrite (IH (update_eyes sx sy dist v)).
        unfold update_eyes. destruct (gaze_rotation sx sy dist). reflexivity. }
      rewrite Hb. reflexivity.
Qed.

End Wiring.


(* ================================================================= *)
(** ** More on the gesture classifier *)

Section Classifier.

Import Hands.
Local Open Scope Q_scope.

(** [round] is within a half of its argument. *)
Lemma round_half_even_close (v : Q) :
  Qabs (inject_Z (round_half_even v) - v) <= 1 # 2.
Proof.
  pose proof (Qfloor_le v) as Hlo.
  pose proof (Qlt_floor v) as Hhi.
  rewrite inject_Z_plus in Hhi. change (inject_Z 1) with 1 in Hhi.
  unfold round_half_even.
  apply Qabs_Qle_condition.
  destruct (Qcompare (v - inject_Z (Qfloor v)) (1 # 2)) eqn:E.
  - apply Qeq_alt in E. destruct (Z.even (Qfloor v)).
    + lra.
    + rewrite inject_Z_plus. change (inject_Z 1) with 1. lra.
  - apply Qlt_alt in E. lra.
  - apply Qgt_alt in E. rewrite inject_Z_plus. change (inject_Z 1) with 1. lra.
Qed.

Lemma round_half_even_nonneg (v : Q) : 0 <= v -> (0 <= round_half_even v)%Z.
Proof.
  intros Hv.
  assert (Hf : (0 <= Qfloor v)%Z).
  { change 0%Z with (Qfloor 0). apply Qfloor_resp_le. exact Hv. }
  unfold round_half_even.
  destruct (Qcompare _ _); [destruct (Z.even _)| |]; lia.
Qed.

(** [round(v, 2)] is within 0.005 of its argument and keeps it from turning
    negative. *)
Lemma round2_close (v : Q) :
  Qabs (round2 v - v) <= 1 # 200 /\ (0 <= v -> 0 <= round2 v).
Proof.
  unfold round2. split.
  - pose proof (round_half_even_close (v * 100)) as H.
    apply Qabs_Qle_condition in H. apply Qabs_Qle_condition.
    set (r := inject_Z (round_half_even (v * 100))) in *.
    assert (E : r / 100 == r * (1 # 100)) by (field).
    rewrite E. lra.
  - intros Hv.
    assert (Hr : (0 <= round_half_even (v * 100))%Z)
      by (apply round_half_even_nonneg; lra).
    set (r := inject_Z (round_half_even (v * 100))).
    assert (Hr' : 0 <= r).
    { unfold r. change 0 with (inject_Z 0). rewrite <- Zle_Qle. exact Hr. }
    assert (E : r / 100 == r * (1 # 100)) by (field).
    rewrite E. lra.
Qed.

(** What [handle_swipe] does with a previous position: it fires exactly
    when the wrist moved by more than the threshold and the cooldown has
    passed. *)
Lemma handle_swipe_cases (cfg : HandConfig) (hand : HandLandmarks) (t : Q)
    (s : HandTracker) :
  let x0 := x (hand 0%nat) in
  prev_x (fst (handle_swipe cfg hand t s)) = Some x0 /\
  ((exists px,
      prev_x s = Some px /\
      SWIPE_THRESHOLD cfg < Qabs (x0 - px) /\
      GESTURE_COOLDOWN cfg < t - last_gesture_time s /\
      last_gesture_time (fst (handle_swipe cfg hand t s)) = t /\
      snd (handle_swipe cfg hand t s) =
        [swipe_callback ((if Qgtb (x0 - px) 0 then 1 else -1)
                         * round2 (Qabs (x0 - px) * 10))])
   \/
   (snd (handle_swipe cfg hand t s) = [] /\
    last_gesture_time (fst (handle_swipe cfg hand t s)) = last_gesture_time s /\
    (forall px, prev_x s = Some px ->
                Qabs (x0 - px) <= SWIPE_THRESHOLD cfg \/
                t - last_gesture_time s <= GESTURE_COOLDOWN cfg))).
Proof.
  intros x0. unfold handle_swipe. fold x0.
  destruct (prev_x s) as [px|].
  - destruct (Qgtb (Qabs (x0 - px)) (SWIPE_THRESHOLD cfg)) eqn:E1;
      [destruct (Qgtb (t - last_gesture_time s) (GESTURE_COOLDOWN cfg)) eqn:E2|];
      cbn [andb fst snd prev_x set_prev_x last_gesture_time set_last_gesture_time].
    + split; [reflexivity|]. left. exists px.
      apply Qgtb_true in E1. apply Qgtb_true in E2.
      repeat split; assumption.
    + split; [reflexivity|]. right.
      apply Qgtb_false in E2.
      repeat split. intros px' H. injection H as <-. right. exact E2.
    + split; [reflexivity|]. right.
      apply Qgtb_false in E1.
      repeat split. intros px' H. injection H as <-. left. exact E1.
  - split; [reflexivity|]. right. repeat split. intros px H. discriminate.
Qed.

(** The signed magnitude formed from a movement is ten times the movement
    to within 0.005 and has its sign. *)
Lemma signed_magnitude_close (mv : Q) :
  let magnitude := (if Qgtb mv 0 then 1 else -1) * round2 (Qabs mv * 10) in
  Qabs (magnitude - 10 * mv) <= 1 # 200 /\
  (0 < mv -> 0 <= magnitude) /\
  (mv <= 0 -> magnitude <= 0).
Proof.
  intros magnitude.
  destruct (round2_close (Qabs mv * 10)) as [Hclose Hnn].
  apply Qabs_Qle_condition in Hclose.
  specialize (Hnn ltac:(pose proof (Qabs_nonneg mv); lra)).
  unfold magnitude. clear magnitude.
  set (r := round2 (Qabs mv * 10)) in *.
  destruct (Qgtb mv 0) eqn:Es.
  - apply Qgtb_true in Es.
    rewrite (Qabs_pos mv) in Hclose by lra.
    split; [apply Qabs_Qle_condition; lra|].
    split; intros; lra.
  - apply Qgtb_false in Es.
    rewrite (Qabs_neg mv) in Hclose by lra.
    split; [apply Qabs_Qle_condition; lra|].
    split; intros; lra.
Qed.

(** Every swipe reported for a hand comes from a previous wrist position
    and a movement beyond the threshold; its magnitude is ten times the
    movement to within 0.005, and carries the sign of the movement. *)
Theorem swipe_magnitude_accuracy (cfg : HandConfig) (hand : HandLandmarks)
    (t : Q) (s : HandTracker) (magnitude : Q)
    (Hswipe : In (swipe_callback magnitude) (snd (handle_swipe cfg hand t s))) :
  exists px : Q,
    prev_x s = Some px /\
    SWIPE_THRESHOLD cfg < Qabs (x (hand 0%nat) - px) /\
    GESTURE_COOLDOWN cfg < t - last_gesture_time s /\
    Qabs (magnitude - 10 * (x (hand 0%nat) - px)) <= 1 # 200 /\
    (0 < x (hand 0%nat) - px -> 0 <= magnitude) /\
    (x (hand 0%nat) - px <= 0 -> magnitude <= 0).
Proof.
  destruct (handle_swipe_cases cfg hand t s) as [_ [Hfire | [Hnone _]]];
    [|rewrite Hnone in Hswipe; contradiction].
  destruct Hfire as (px & Hp & Hthr & Hcd & _ & Hout).
  rewrite Hout in Hswipe. destruct Hswipe as [E | []].
  apply (f_equal (fun c => match c with
                           | swipe_callback m => m
                           | stop_callback => 0
                           end)) in E.
  cbv beta iota in E.
  exists px. split; [exact Hp|]. split; [exact Hthr|]. split; [exact Hcd|].
  rewrite <- E. apply signed_magnitude_close.
Qed.

Lemma swipe_magnitude_accuracy_witness :
  exists px : Q,
    Some (1 # 10) = Some px /\
    Qabs ((300 # 100) - 10 * ((4 # 10) - px)) <= 1 # 200.
Proof.
  assert (H : In (swipe_callback (300 # 100))
                 (snd (handle_swipe config (hand_at (4 # 10) (5 # 10) (5 # 10))
                         (101 # 10)
                         (mkHandTracker (Some (1 # 10)) true 10 0))))
    by (vm_compute; left; reflexivity).
  destruct (swipe_magnitude_accuracy _ _ _ _ _ H)
    as (px & Hp & _ & _ & Hacc & _).
  exists px. split; [exact Hp | exact Hacc].
Defined.

(** The stop detector fires exactly when the hand is open beyond the
    threshold and the cooldown has passed. *)
Lemma handle_stop_gesture_cases (cfg : HandConfig) (hand : HandLandmarks)
    (t : Q) (s : HandTracker) :
  prev_x (fst (handle_stop_gesture cfg hand t s)) = prev_x s /\
  ((STOP_THRESHOLD cfg < openness hand /\
    GESTURE_COOLDOWN cfg < t - last_gesture_time s /\
    last_gesture_time (fst (handle_stop_gesture cfg hand t s)) = t /\
    snd (handle_stop_gesture cfg hand t s) = [stop_callback])
   \/
   (snd (handle_stop_gesture cfg hand t s) = [] /\
    fst (handle_stop_gesture cfg hand t s) = s /\
    (openness hand <= STOP_THRESHOLD cfg \/
     t - last_gesture_time s <= GESTURE_COOLDOWN cfg))).
Proof.
  unfold handle_stop_gesture. fold (openness hand).
  destruct (Qgtb (openness hand) (STOP_THRESHOLD cfg)) eqn:E1;
    [destruct (Qgtb (t - last_gesture_time s) (GESTURE_COOLDOWN cfg)) eqn:E2|];
    cbn [andb fst snd prev_x last_gesture_time set_last_gesture_time].
  - split; [reflexivity|]. left.
    apply Qgtb_true in E1. apply Qgtb_true in E2. repeat split; assumption.
  - split; [reflexivity|]. right. apply Qgtb_false in E2.
    repeat split. right. exact E2.
  - split; [reflexivity|]. right. apply Qgtb_false in E1.
    repeat split. left. exact E1.
Qed.

(** The decision a frame with one hand comes to.  It reports a swipe
    exactly when the cooldown has passed and the wrist is further than the
    swipe threshold from a stored position; a stop exactly when the
    cooldown has passed, the hand is open beyond the stop threshold and no
    swipe is due; nothing otherwise.  Either way the tracker is then
    visible, last seen at the frame time, with the wrist position stored. *)
Theorem single_hand_frame_decision (cfg : HandConfig) (t : Q)
    (hand : HandLandmarks) (s : HandTracker)
    (Hcd : 0 <= GESTURE_COOLDOWN cfg) :
  let cool := GESTURE_COOLDOWN cfg < t - last_gesture_time s in
  let moved := exists px, prev_x s = Some px /\
                          SWIPE_THRESHOLD cfg < Qabs (x (hand 0%nat) - px) in
  let spread := STOP_THRESHOLD cfg < openness hand in
  let emitted := snd (track cfg (mkFrame t [hand]) s) in
  let s' := fst (track cfg (mkFrame t [hand]) s) in
  ((exists magnitude, emitted = [swipe_callback magnitude]) <-> cool /\ moved) /\
  (emitted = [stop_callback] <-> cool /\ spread /\ ~ moved) /\
  (emitted = [] <-> ~ cool \/ (~ moved /\ ~ spread)) /\
  prev_x s' = Some (x (hand 0%nat)) /\
  hand_visible s' = true /\
  last_seen_time s' = t.
Proof.
  intros cool moved spread emitted s'.
  unfold emitted, s', track.
  cbn [multi_hand_landmarks current_time for_hands].
  set (s0 := {| prev_x := prev_x s; hand_visible := true;
                last_seen_time := t;
                last_gesture_time := last_gesture_time s |}).
  destruct (handle_swipe_cases cfg hand t s0) as [Hpx Hsw].
  assert (Hvis : hand_visible (fst (handle_swipe cfg hand t s0)) = true /\
                 last_seen_time (fst (handle_swipe cfg hand t s0)) = t).
  { unfold handle_swipe.
    destruct (prev_x s0); [|split; reflexivity].
    match goal with |- context [if ?b then _ else _] => destruct b end;
      split; reflexivity. }
  destruct (handle_swipe cfg hand t s0) as [s1 o1]. cbn [fst snd] in *.
  destruct (handle_stop_gesture_cases cfg hand t s1) as [Hpx2 Hst].
  assert (Hvis2 : hand_visible (fst (handle_stop_gesture cfg hand t s1))
                  = hand_visible s1 /\
                  last_seen_time (fst (handle_stop_gesture cfg hand t s1))
                  = last_seen_time s1).
  { unfold handle_stop_gesture.
    match goal with |- context [if ?b then _ else _] => destruct b end;
      split; reflexivity. }
  destruct (handle_stop_gesture cfg hand t s1) as [s2 o2]. cbn [fst snd] in *.
  rewrite app_nil_r.
  assert (Hstate : prev_x s2 = Some (x (hand 0%nat)) /\
                   hand_visible s2 = true /\ last_seen_time s2 = t).
  { destruct Hvis, Hvis2. repeat split; congruence. }
  cut (((exists magnitude, o1 ++ o2 = [swipe_callback magnitude])
        <-> cool /\ moved) /\
       (o1 ++ o2 = [stop_callback] <-> cool /\ spread /\ ~ moved) /\
       (o1 ++ o2 = [] <-> ~ cool \/ ~ moved /\ ~ spread)); [tauto|].
  clear Hstate Hvis Hvis2 Hpx Hpx2.
  change (prev_x s0) with (prev_x s) in Hsw.
  change (last_gesture_time s0) with (last_gesture_time s) in Hsw.
  unfold cool, moved, spread.
  destruct Hsw as [(px & Hp & Hthr & Hc & Hl & ->) | (-> & Hl & Hno)].
  - (* the swipe fired: the stop detector sees a clock equal to the frame time *)
    destruct Hst as [(_ & Hc2 & _) | (-> & _ & _)].
    + exfalso. rewrite Hl in Hc2.
      assert (Hz : t - t == 0) by ring. rewrite Hz in Hc2. lra.
    + cbn [app]. split; [|split].
      * split; [intros _; split; [exact Hc | exists px; split; assumption]
               | intros _; eexists; reflexivity].
      * split; [discriminate|].
        intros (_ & _ & Hnm). exfalso. apply Hnm. exists px. split; assumption.
      * split; [discriminate|].
        intros [Hnc | [Hnm _]]; [contradiction|].
        exfalso. apply Hnm. exists px. split; assumption.
  - (* no swipe: the stop detector sees the old clock *)
    assert (Hnot : ~ (GESTURE_COOLDOWN cfg < t - last_gesture_time s /\
                      exists px, prev_x s = Some px /\
                                 SWIPE_THRESHOLD cfg < Qabs (x (hand 0%nat) - px))).
    { intros [Hc (px & Hp & Hthr)].
      destruct (Hno px Hp) as [H | H]; lra. }
    rewrite Hl in Hst. cbn [app].
    destruct Hst as [(Hsp & Hc2 & _ & ->) | (-> & _ & Hor)].
    + split; [|split].
      * split; [intros [m E]; discriminate | intros H; contradiction].
      * split; [intros _; repeat split; try assumption; tauto | reflexivity].
      * split; [discriminate|].
        intros [Hnc | [_ Hns]]; contradiction.
    + split; [|split].
      * split; [intros [m E]; discriminate | intros H; contradiction].
      * split; [discriminate|].
        intros (Hc2 & Hsp & _). destruct Hor; lra.
      * split; [|reflexivity]. intros _.
        destruct Hor as [Hop | Hco]; [|left; lra].
        destruct (Qlt_le_dec (GESTURE_COOLDOWN cfg) (t - last_gesture_time s))
          as [Hc2 | Hc2]; [|left; lra].
        right. split; [tauto | lra].
Qed.

Lemma single_hand_frame_decision_witness :
  0 <= GESTURE_COOLDOWN config /\
  snd (track config (mkFrame 11 [hand_at (9 # 10) (9 # 10) (1 # 10)])
         (mkHandTracker (Some (9 # 10)) true 10 0)) = [stop_callback].
Proof.
  assert (H : 0 <= GESTURE_COOLDOWN config) by (vm_compute; discriminate).
  split; [exact H|].
  destruct (single_hand_frame_decision config 11
              (hand_at (9 # 10) (9 # 10) (1 # 10))
              (mkHandTracker (Some (9 # 10)) true 10 0) H)
    as (_ & Hstop & _).
  apply Hstop. split; [|split].
  - vm_compute. reflexivity.
  - vm_compute. reflexivity.
  - intros (px & Hp & Hthr). injection Hp as <-.
    revert Hthr. vm_compute. discriminate.
Defined.

End Classifier.


(* ================================================================= *)
(** ** Runs of the gesture classifier *)

Section Runs.

Import Hands.
Local Open Scope Q_scope.

Lemma last_app_nonempty {A : Type} (l l' : list A) (d : A) :
  l' <> [] -> last (l ++ l') d = last l' d.
Proof.
  intros Hne. induction l as [|a l IH]; [reflexivity|].
  cbn [app]. rewrite last_cons.
  destruct l as [|b l].
  - cbn [app]. destruct l' as [|c l']; [contradiction|].
    rewrite (last_cons c a), (last_cons c d). reflexivity.
  - cbn [app] in *. rewrite last_cons in IH. rewrite last_cons. 
    rewrite <- IH. destruct (l ++ l'); reflexivity.
Qed.

Lemma track_no_hand (cfg : HandConfig) (fr : Frame) (s : HandTracker) :
  multi_hand_landmarks fr = [] ->
  snd (track cfg fr s) = [] /\
  last_gesture_time (fst (track cfg fr s)) = last_gesture_time s /\
  last_seen_time (fst (track cfg fr s)) = last_seen_time s /\
  ((hand_visible (fst (track cfg fr s)) = false /\
    prev_x (fst (track cfg fr s)) = None) \/
   fst (track cfg fr s) = s).
Proof.
  intros H. unfold track. rewrite H.
  match goal with |- context [if ?b then _ else _] => destruct b end;
    cbn; repeat split; tauto.
Qed.

(** The callbacks of a run, accounted for: there are no more of them than
    frames with a hand, each carries the time of such a frame, and the
    gesture clock ends at the time of the last of them (or where it
    started, when there is none). *)
Theorem run_callbacks_accounting (cfg : HandConfig) (frames : list Frame)
    (s : HandTracker) (Hcd : 0 <= GESTURE_COOLDOWN cfg) :
  let emitted := snd (run cfg frames s) in
  (length emitted
   <= length (filter (fun fr => match multi_hand_landmarks fr with
                                | [] => false
                                | _ => true
                                end) frames))%nat /\
  Forall (fun e => exists fr, In fr frames /\
                              multi_hand_landmarks fr <> [] /\
                              fst e = current_time fr) emitted /\
  last_gesture_time (fst (run cfg frames s))
    = last (map fst emitted) (last_gesture_time s).
Proof.
  revert s. induction frames as [|fr rest IH]; intros s.
  - cbn. repeat split; [lia | constructor].
  - cbn [run].
    pose proof (track_outcome cfg Hcd fr s) as Ho.
    pose proof (track_no_hand cfg fr s) as Hn.
    destruct (track cfg fr s) as [s1 out].
    specialize (IH s1).
    destruct (run cfg rest s1) as [s2 outs].
    cbn [fst snd] in *. cbv zeta in IH.
    destruct IH as (Hlen & Hall & Hlast).
    assert (Hall' : Forall (fun e => exists fr0, In fr0 (fr :: rest) /\
                                       multi_hand_landmarks fr0 <> [] /\
                                       fst e = current_time fr0) outs).
    { eapply Forall_impl; [|exact Hall].
      intros e (fr0 & Hin & Hh & He). exists fr0.
      split; [right; exact Hin | split; assumption]. }
    cbn [filter].
    destruct (multi_hand_landmarks fr) as [|h hs] eqn:Eh.
    + destruct (Hn eq_refl) as (-> & Hl & _). cbn [map app].
      rewrite Hlast, Hl. repeat split; assumption.
    + destruct Ho as [[-> Hl] | (c & -> & Hl & _)]; cbn [map app length].
      * rewrite Hlast, Hl. repeat split; [lia | assumption].
      * rewrite last_cons. cbn [fst]. rewrite Hlast, Hl.
        repeat split; [lia|].
        constructor; [|exact Hall'].
        exists fr. cbn [fst]. rewrite Eh.
        split; [left; reflexivity | split; [discriminate | reflexivity]].
Qed.

Lemma run_callbacks_accounting_witness :
  0 <= GESTURE_COOLDOWN config /\
  (length (snd (run config sweep (init 9))) <= 4)%nat /\
  last_gesture_time (fst (run config sweep (init 9)))
    = last (map fst (snd (run config sweep (init 9)))) 0.
Proof.
  assert (H : 0 <= GESTURE_COOLDOWN config) by (vm_compute; discriminate).
  split; [exact H|].
  destruct (run_callbacks_accounting config sweep (init 9) H)
    as (Hlen & _ & Hlast).
  split; [exact Hlen | exact Hlast].
Defined.

(** After the hands of a frame the stored position is the wrist of the last
    of them. *)
Lemma for_hands_prev_x (cfg : HandConfig) (hands : list HandLandmarks) (t : Q) :
  forall s,
    hands <> [] ->
    prev_x (fst (for_hands cfg hands t s))
      = Some (last (map (fun h => x (h 0%nat)) hands) 0).
Proof.
  induction hands as [|hand rest IH]; intros s Hne; [contradiction|].
  cbn [for_hands].
  destruct (handle_swipe_cases cfg hand t s) as [Hp _].
  destruct (handle_swipe cfg hand t s) as [s1 o1].
  destruct (handle_stop_gesture_cases cfg hand t s1) as [Hp2 _].
  destruct (handle_stop_gesture cfg hand t s1) as [s2 o2].
  cbn [fst] in *.
  destruct rest as [|hand2 rest'].
  - cbn. congruence.
  - specialize (IH s2 ltac:(discriminate)).
    destruct (for_hands cfg (hand2 :: rest') t s2) as [s3 o3].
    cbn [fst] in *. rewrite IH.
    cbn [map]. rewrite (last_cons (x (hand 0%nat)) 0).
    rewrite !(last_cons (x (hand2 0%nat))). reflexivity.
Qed.

Lemma wrists_cons (fr : Frame) (frames : list Frame) :
  wrists (fr :: frames)
    = map (fun h => x (h 0%nat)) (multi_hand_landmarks fr) ++ wrists frames.
Proof. reflexivity. Qed.

Lemma run_position (cfg : HandConfig) (frames : list Frame) :
  forall (s : HandTracker) (seen : list Q),
    (hand_visible s = false /\ prev_x s = None) \/
    (hand_visible s = true /\ seen <> [] /\ prev_x s = Some (last seen 0)) ->
    let s' := fst (run cfg frames s) in
    (hand_visible s' = false /\ prev_x s' = None) \/
    (hand_visible s' = true /\ seen ++ wrists frames <> [] /\
     prev_x s' = Some (last (seen ++ wrists frames) 0)).
Proof.
  induction frames as [|fr rest IH]; intros s seen Hinv.
  - cbn. rewrite app_nil_r. exact Hinv.
  - cbn [run].
    pose proof (track_no_hand cfg fr s) as Hn.
    pose proof (track_hand_seen cfg fr s) as Hs.
    assert (Hp : multi_hand_landmarks fr <> [] ->
                 prev_x (fst (track cfg fr s))
                 = Some (last (map (fun h => x (h 0%nat))
                                   (multi_hand_landmarks fr)) 0)).
    { intros Hne. unfold track.
      destruct (multi_hand_landmarks fr) as [|h hs]; [contradiction|].
      apply for_hands_prev_x. discriminate. }
    destruct (track cfg fr s) as [s1 out].
    specialize (IH s1 (seen ++ map (fun h => x (h 0%nat))
                                   (multi_hand_landmarks fr))).
    destruct (run cfg rest s1) as [s2 outs].
    cbn [fst snd] in *. cbv zeta in IH.
    rewrite wrists_cons, app_assoc.
    apply IH.
    destruct (multi_hand_landmarks fr) as [|h hs] eqn:Eh.
    + cbn [map]. rewrite app_nil_r.
      destruct (Hn eq_refl) as (_ & _ & _ & [Hclr | ->]);
        [left; exact Hclr | exact Hinv].
    + right. destruct (Hs ltac:(discriminate)) as [Hv _].
      split; [exact Hv|].
      split; [intros E; apply app_eq_nil in E; destruct E; discriminate|].
      rewrite Hp by discriminate.
      rewrite last_app_nonempty by discriminate. reflexivity.
Qed.

(** On every state a fresh tracker can reach, the visibility flag and the
    stored position go together: not visible means no position, visible
    means the position is the wrist of the last hand processed. *)
Theorem tracker_position_invariant (cfg : HandConfig) (frames : list Frame)
    (now : Q) :
  let s := fst (run cfg frames (init now)) in
  (hand_visible s = false <-> prev_x s = None) /\
  (hand_visible s = true ->
   wrists frames <> [] /\ prev_x s = Some (last (wrists frames) 0)).
Proof.
  pose proof (run_position cfg frames (init now) []
                (or_introl (conj eq_refl eq_refl))) as H.
  cbv zeta in *. cbn [app] in H.
  destruct H as [[Hv Hp] | (Hv & Hne & Hp)].
  - split; [tauto|]. intros E. congruence.
  - split; [|tauto].
    split; intros E; congruence.
Qed.

Lemma steps_within_forget (bound : Q) (prev : option Q) (xs : list Q) :
  steps_within bound prev xs -> steps_within bound None xs.
Proof.
  destruct xs as [|x0 rest]; [trivial|].
  cbn [steps_within]. intros [_ H]. split; [exact I | exact H].
Qed.

(** The hands of one frame whose wrists each stay within the threshold of
    the wrist before: no swipe, and the walk goes on from the last wrist. *)
Lemma for_hands_slow (cfg : HandConfig) (hands : list HandLandmarks) (t : Q)
    (later : list Q) :
  forall s,
    steps_within (SWIPE_THRESHOLD cfg) (prev_x s)
                 (map (fun h => x (h 0%nat)) hands ++ later) ->
    forallb (fun c => negb (is_swipe c)) (snd (for_hands cfg hands t s)) = true /\
    steps_within (SWIPE_THRESHOLD cfg) (prev_x (fst (for_hands cfg hands t s)))
                 later.
Proof.
  induction hands as [|hand rest IH]; intros s Hw.
  - split; [reflexivity | exact Hw].
  - cbn [map app steps_within] in Hw. destruct Hw as [Hstep Hw].
    cbn [for_hands].
    destruct (handle_swipe_cases cfg hand t s) as [Hp Hsw].
    assert (Ho1 : snd (handle_swipe cfg hand t s) = []).
    { destruct Hsw as [(px & Hpx & Hthr & _) | [Hnone _]]; [|exact Hnone].
      exfalso. rewrite Hpx in Hstep. lra. }
    destruct (handle_swipe cfg hand t s) as [s1 o1].
    cbn [fst snd] in *. subst o1.
    destruct (handle_stop_gesture_cases cfg hand t s1) as [Hp2 Hst].
    assert (Ho2 : forallb (fun c => negb (is_swipe c))
                          (snd (handle_stop_gesture cfg hand t s1)) = true).
    { destruct Hst as [(_ & _ & _ & ->) | [-> _]]; reflexivity. }
    destruct (handle_stop_gesture cfg hand t s1) as [s2 o2].
    cbn [fst snd] in *.
    rewrite <- Hp, <- Hp2 in Hw.
    destruct (IH s2 Hw) as [Ho3 Hw3].
    destruct (for_hands cfg rest t s2) as [s3 o3].
    cbn [fst snd app] in *.
    rewrite forallb_app, Ho2, Ho3. split; [reflexivity | exact Hw3].
Qed.

(** A hand, or several, that never move further than the swipe threshold
    from one sample to the next, absences included, are never reported as
    a swipe. *)
Theorem slow_hand_never_swipes (cfg : HandConfig) (frames : list Frame)
    (s : HandTracker)
    (Hslow : steps_within (SWIPE_THRESHOLD cfg) (prev_x s) (wrists frames)) :
  Forall (fun e => is_swipe (snd e) = false) (snd (run cfg frames s)).
Proof.
  revert s Hslow. induction frames as [|fr rest IH]; intros s Hslow.
  - constructor.
  - cbn [run]. rewrite wrists_cons in Hslow.
    pose proof (track_no_hand cfg fr s) as Hn.
    assert (Hh : multi_hand_landmarks fr <> [] ->
                 forallb (fun c => negb (is_swipe c)) (snd (track cfg fr s)) = true /\
                 steps_within (SWIPE_THRESHOLD cfg)
                              (prev_x (fst (track cfg fr s))) (wrists rest)).
    { intros Hne. unfold track.
      destruct (multi_hand_landmarks fr) as [|h hs]; [contradiction|].
      apply for_hands_slow. exact Hslow. }
    destruct (track cfg fr s) as [s1 out].
    specialize (IH s1).
    destruct (run cfg rest s1) as [s2 outs].
    cbn [fst snd] in *.
    destruct (multi_hand_landmarks fr) as [|h hs] eqn:Eh.
    + destruct (Hn eq_refl) as (-> & _ & _ & Hst). cbn [map app] in *.
      apply IH.
      destruct Hst as [[_ Hclr] | ->]; [|exact Hslow].
      rewrite Hclr. eapply steps_within_forget. exact Hslow.
    + destruct (Hh ltac:(discriminate)) as [Hout Hw].
      apply Forall_app. split; [|apply IH; exact Hw].
      apply Forall_forall. intros e He. apply in_map_iff in He.
      destruct He as (c & <- & Hc). cbn [snd].
      rewrite forallb_forall in Hout. specialize (Hout c Hc).
      destruct (is_swipe c); [discriminate | reflexivity].
Qed.

Lemma slow_hand_never_swipes_witness :
  Forall (fun e => is_swipe (snd e) = false)
         (snd (run config
                 [ mkFrame 10 [hand_at (1 # 10) (5 # 10) (5 # 10)];
                   mkFrame 11 [hand_at (2 # 10) (5 # 10) (5 # 10)];
                   mkFrame 12 [];
                   mkFrame 13 [hand_at (35 # 100) (5 # 10) (5 # 10)] ]
                 (init 9))).
Proof.
  apply slow_hand_never_swipes.
  cbn. repeat split; vm_compute; discriminate.
Defined.

(** Hands that are never open beyond the stop threshold are never reported
    as a stop. *)
Theorem closed_hand_never_stops (cfg : HandConfig) (frames : list Frame)
    (s : HandTracker)
    (Hclosed : forall fr hand,
        In fr frames -> In hand (multi_hand_landmarks fr) ->
        openness hand <= STOP_THRESHOLD cfg) :
  Forall (fun e => is_stop (snd e) = false) (snd (run cfg frames s)).
Proof.
  assert (Hhands : forall hands t s0,
             (forall hand, In hand hands -> openness hand <= STOP_THRESHOLD cfg) ->
             forallb (fun c => negb (is_stop c))
                     (snd (for_hands cfg hands t s0)) = true).
  { induction hands as [|hand rest IH]; intros t s0 Hc; [reflexivity|].
    cbn [for_hands].
    destruct (handle_swipe_cases cfg hand t s0) as [_ Hsw].
    assert (Ho1 : forallb (fun c => negb (is_stop c))
                          (snd (handle_swipe cfg hand t s0)) = true).
    { destruct Hsw as [(px & _ & _ & _ & _ & ->) | [-> _]]; reflexivity. }
    destruct (handle_swipe cfg hand t s0) as [s1 o1].
    destruct (handle_stop_gesture_cases cfg hand t s1) as [_ Hst].
    assert (Ho2 : snd (handle_stop_gesture cfg hand t s1) = []).
    { destruct Hst as [(Hopen & _) | [Hnone _]]; [|exact Hnone].
      exfalso. specialize (Hc hand (or_introl eq_refl)). lra. }
    destruct (handle_stop_gesture cfg hand t s1) as [s2 o2].
    specialize (IH t s2 (fun h Hh => Hc h (or_intror Hh))).
    destruct (for_hands cfg rest t s2) as [s3 o3].
    cbn [fst snd] in *. subst o2. cbn [app].
    rewrite forallb_app, Ho1, IH. reflexivity. }
  revert s. induction frames as [|fr rest IH]; intros s; [constructor|].
  cbn [run].
  pose proof (track_no_hand cfg fr s) as Hn.
  assert (Hout : forallb (fun c => negb (is_stop c)) (snd (track cfg fr s)) = true).
  { unfold track.
    destruct (multi_hand_landmarks fr) as [|h hs] eqn:Eh.
    - match goal with |- context [if ?b then _ else _] => destruct b end;
        reflexivity.
    - apply Hhands. intros hand Hh. apply (Hclosed fr hand).
      + left. reflexivity.
      + rewrite Eh. exact Hh. }
  destruct (track cfg fr s) as [s1 out].
  specialize (IH (fun fr0 hand Hf Hh => Hclosed fr0 hand (or_intror Hf) Hh) s1).
  destruct (run cfg rest s1) as [s2 outs].
  cbn [fst snd] in *.
  apply Forall_app. split; [|exact IH].
  apply Forall_forall. intros e He. apply in_map_iff in He.
  destruct He as (c & <- & Hc). cbn [snd].
  rewrite forallb_forall in Hout. specialize (Hout c Hc).
  destruct (is_stop c); [discriminate | reflexivity].
Qed.

Lemma closed_hand_never_stops_witness :
  Forall (fun e => is_stop (snd e) = false) (snd (run config sweep (init 9))).
Proof.
  apply closed_hand_never_stops.
  intros fr hand Hf Hh. unfold sweep in Hf. cbn [In] in Hf.
  repeat (destruct Hf as [<- | Hf];
          [cbn [multi_hand_landmarks In] in Hh;
           destruct Hh as [<- | []]; vm_compute; discriminate|]).
  contradiction.
Defined.

(** The stored position is shared by all hands of a frame.  Two hands in
    one frame, the first closed and met without a stored position, the
    second further than the swipe threshold away from the first: the frame
    reports a swipe by the distance between the two wrists, though neither
    hand has moved. *)
Theorem two_hands_swipe_without_moving (cfg : HandConfig) (t : Q)
    (first second : HandLandmarks) (s : HandTracker)
    (Hcd : 0 <= GESTURE_COOLDOWN cfg)
    (Hnone : prev_x s = None)
    (Hclosed : openness first <= STOP_THRESHOLD cfg)
    (Hapart : SWIPE_THRESHOLD cfg
              < Qabs (x (second 0%nat) - x (first 0%nat)))
    (Hcool : GESTURE_COOLDOWN cfg < t - last_gesture_time s) :
  let gap := x (second 0%nat) - x (first 0%nat) in
  snd (track cfg (mkFrame t [first; second]) s)
    = [swipe_callback ((if Qgtb gap 0 then 1 else -1)
                       * round2 (Qabs gap * 10))].
Proof.
  intros gap. unfold track.
  cbn [multi_hand_landmarks current_time for_hands].
  set (s0 := {| prev_x := prev_x s; hand_visible := true;
                last_seen_time := t;
                last_gesture_time := last_gesture_time s |}).
  rewrite (handle_swipe_no_previous cfg first t s0 Hnone).
  destruct (handle_stop_gesture_cases cfg first t
              (set_prev_x (Some (x (first 0%nat))) s0))
    as [_ [(Hopen & _) | (Ho & Hs & _)]]; [lra|].
  destruct (handle_stop_gesture cfg first t _) as [s2 o2].
  cbn [fst snd] in *. subst o2 s2.
  destruct (handle_swipe_cases cfg second t
              (set_prev_x (Some (x (first 0%nat))) s0))
    as [_ [(px & Hp & _ & _ & Hl & Hout) | (_ & _ & Hno)]].
  - cbn [prev_x set_prev_x] in Hp. injection Hp as <-.
    destruct (handle_swipe cfg second t _) as [s3 o3].
    cbn [fst snd] in *. subst o3.
    destruct (handle_stop_gesture_cases cfg second t s3)
      as [_ [(_ & Hc2 & _) | (Ho & _)]].
    + exfalso. rewrite Hl in Hc2.
      assert (Hz : t - t == 0) by ring. rewrite Hz in Hc2. lra.
    + destruct (handle_stop_gesture cfg second t s3) as [s4 o4].
      cbn [snd] in *. subst o4. reflexivity.
  - exfalso. destruct (Hno (x (first 0%nat)) eq_refl) as [H | H].
    + lra.
    + cbn [last_gesture_time set_prev_x s0] in H. lra.
Qed.

Lemma two_hands_swipe_without_moving_witness :
  snd (track config
         (mkFrame 10 [hand_at (2 # 10) (5 # 10) (5 # 10);
                      hand_at (8 # 10) (5 # 10) (5 # 10)])
         (init 9))
  = [swipe_callback (600 # 100)].
Proof.
  assert (Hcd : 0 <= GESTURE_COOLDOWN config) by (vm_compute; discriminate).
  assert (Hclosed : openness (hand_at (2 # 10) (5 # 10) (5 # 10))
                    <= STOP_THRESHOLD config) by (vm_compute; discriminate).
  assert (Hapart : SWIPE_THRESHOLD config
                   < Qabs (x (hand_at (8 # 10) (5 # 10) (5 # 10) 0%nat)
                           - x (hand_at (2 # 10) (5 # 10) (5 # 10) 0%nat)))
    by (vm_compute; reflexivity).
  assert (Hcool : GESTURE_COOLDOWN config < 10 - last_gesture_time (init 9))
    by (vm_compute; reflexivity).
  pose proof (two_hands_swipe_without_moving config 10
                (hand_at (2 # 10) (5 # 10) (5 # 10))
                (hand_at (8 # 10) (5 # 10) (5 # 10))
                (init 9) Hcd eq_refl Hclosed Hapart Hcool) as H.
  cbv zeta in H. rewrite H. vm_compute. reflexivity.
Defined.

End Runs.



(* ================================================================= *)
(** ** From a wrist movement to the speed of the spin *)

Section Reception.

Import Np View3D SHolo.
Local Open Scope R_scope.

Lemma process_delivers_at_most_one_witness :
  (0 <= Hands.GESTURE_COOLDOWN Hands.config)%Q /\
  (motion (snd (process Hands.config
                  (mkCapture [] (Hands.mkFrame 11
                                   [hand_at (9 # 10) (9 # 10) (1 # 10)]))
                  (Hands.mkHandTracker (Some (9 # 10)) true 10 0,
                   init_default [])))
   = motion (init_default []) \/
   (exists magnitude : Q,
      motion (snd (process Hands.config
                     (mkCapture [] (Hands.mkFrame 11
                                      [hand_at (9 # 10) (9 # 10) (1 # 10)]))
                     (Hands.mkHandTracker (Some (9 # 10)) true 10 0,
                      init_default [])))
      = motion (swipe (Q2R magnitude) (init_default []))) \/
   motion (snd (process Hands.config
                  (mkCapture [] (Hands.mkFrame 11
                                   [hand_at (9 # 10) (9 # 10) (1 # 10)]))
                  (Hands.mkHandTracker (Some (9 # 10)) true 10 0,
                   init_default [])))
   = motion (stop_rotation (init_default []))).
Proof.
  assert (H : (0 <= Hands.GESTURE_COOLDOWN Hands.config)%Q)
    by (vm_compute; discriminate).
  split; [exact H|].
  exact (process_delivers_at_most_one Hands.config _ _ _ H).
Defined.

(** A reported swipe, delivered to the viewer, changes the signed speed by
    twice the wrist movement, to within 0.001: the factor ten of the
    classifier and the division by five of the viewer combine to two. *)
Theorem swipe_reaches_viewer (cfg : Hands.HandConfig)
    (hand : Hands.HandLandmarks) (t px magnitude : Q)
    (s : Hands.HandTracker) (v : HoloViewer)
    (Hprev : Hands.prev_x s = Some px)
    (Hswipe : In (Hands.swipe_callback magnitude)
                 (snd (Hands.handle_swipe cfg hand t s))) :
  let movement := Q2R (Hands.x (hand 0%nat) - px) in
  let v' := deliver (Hands.swipe_callback magnitude) v in
  Rabs (signed_speed v' - (signed_speed v + 2 * movement)) <= 1 / 1000 /\
  target_speed v' = base_speed v /\
  deceleration v' = base_deceleration v.
Proof.
  intros movement v'.
  destruct (handle_swipe_cases cfg hand t s) as [_ [Hfire | [Hnone _]]];
    [|rewrite Hnone in Hswipe; contradiction].
  destruct Hfire as (px' & Hp & _ & _ & _ & Hout).
  rewrite Hprev in Hp.
  assert (Epx : px = px') by congruence. subst px'. clear Hp.
  rewrite Hout in Hswipe. destruct Hswipe as [E | []].
  apply (f_equal (fun c => match c with
                           | Hands.swipe_callback m => m
                           | Hands.stop_callback => 0%Q
                           end)) in E.
  cbv beta iota in E.
  destruct (signed_magnitude_close (Hands.x (hand 0%nat) - px)) as [Hacc _].
  cbv zeta in Hacc. rewrite E in Hacc.
  apply Qabs_Qle_condition in Hacc. destruct Hacc as [Hlo Hhi].
  apply Qle_Rle in Hlo. apply Qle_Rle in Hhi.
  rewrite Q2R_opp in Hlo.
  rewrite Q2R_minus, Q2R_mult in Hlo, Hhi.
  fold movement in Hlo, Hhi.
  assert (H10 : Q2R 10 = 10) by (unfold Q2R; simpl; field).
  assert (H200 : Q2R (1 # 200) = 1 / 200) by (unfold Q2R; simpl; field).
  rewrite H10, H200 in *.
  assert (Hs : signed_speed v' = Q2R magnitude / 5 + signed_speed v).
  { unfold v', deliver, signed_speed, swipe.
    cbn [current_speed rotation_direction].
    destruct (Rge_dec (Q2R magnitude / 5
                       + current_speed v * IZR (rotation_direction v)) 0);
      simpl; lra. }
  split; [|split; reflexivity].
  rewrite Hs. apply Rabs_le. lra.
Qed.

Lemma swipe_reaches_viewer_witness :
  Rabs (signed_speed (deliver (Hands.swipe_callback (300 # 100))
                              (init_default []))
        - (signed_speed (init_default [])
           + 2 * Q2R ((4 # 10) - (1 # 10)))) <= 1 / 1000.
Proof.
  assert (Hp : Hands.prev_x (Hands.mkHandTracker (Some (1 # 10)) true 10 0)
               = Some (1 # 10)) by reflexivity.
  assert (H : In (Hands.swipe_callback (300 # 100))
                 (snd (Hands.handle_swipe Hands.config
                         (hand_at (4 # 10) (5 # 10) (5 # 10)) (101 # 10)
                         (Hands.mkHandTracker (Some (1 # 10)) true 10 0))))
    by (vm_compute; left; reflexivity).
  exact (proj1 (swipe_reaches_viewer Hands.config
                  (hand_at (4 # 10) (5 # 10) (5 # 10)) (101 # 10) (1 # 10)
                  (300 # 100)
                  (Hands.mkHandTracker (Some (1 # 10)) true 10 0)
                  (init_default []) Hp H)).
Defined.

End Reception.

(* ================================================================= *)
(** ** The cooldown, from both sides *)

Section SharedClock.

Import Hands.
Local Open Scope Q_scope.








End SharedClock.
